(** * Soft Actor-Critic for the donkey-car agent: model and properties

    A shallow embedding of [RL/algo.py] (replay buffer, trainer, squashed
    Gaussian helpers) and [RL/SAC.py] (the SAC algorithm).

    Modelling conventions.
    - A float tensor is a list of real numbers: a batch column of shape
      [B,1] is a [list R], a batch of rows of shape [B,d] is a
      [list (list R)].  Arithmetic is the arithmetic of [R]; the rounding
      of the 32-bit floats is modelled where a statement depends on it
      ([Float32]) and is left out elsewhere.
    - Element-wise tensor operations are zips.  torch raises on operands
      whose shapes do not agree, so statements about batches carry the
      shape agreement as a hypothesis.
    - Python integers are [Z].
    - Random draws (torch and numpy generators) are explicit arguments.
    - The networks of [SAC_model.py] and the environment of [env.py] are
      interfaces ([Networks], [Env]); the algorithm is stated over any
      instance of them.
    - [torch], [numpy] and [pfrl] operations are modelled after the
      libraries, each one named where it is used. *)

From Stdlib Require Import Reals Lra Lia List ZArith Bool Arith Permutation.
Import ListNotations.

Open Scope R_scope.

(** ** Tensors *)

Module Tensor.

Fixpoint zipWith {A B C : Type} (f : A -> B -> C) (xs : list A) (ys : list B)
  : list C :=
  match xs, ys with
  | x :: xs', y :: ys' => f x y :: zipWith f xs' ys'
  | _, _ => []
  end.

(** [t.sum()] of a one-dimensional tensor. *)
Definition rsum (xs : list R) : R := fold_right Rplus 0 xs.

(** [t.mean()]. *)
Definition mean (xs : list R) : R := rsum xs / INR (length xs).

(** The rows of a batch with their positions. *)
Definition indexed {X : Type} (xs : list X) : list (nat * X) :=
  combine (seq 0 (length xs)) xs.

(** Rows of a [B,d] tensor all have [d] entries. *)
Definition shape2 (B d : nat) (t : list (list R)) : Prop :=
  length t = B /\ Forall (fun row => length row = d) t.

End Tensor.
Import Tensor.

(** ** Squashed Gaussian helpers of algo.py *)

Module Squash.

(** [torch.distributions.Normal(loc, scale).log_prob(value)]:
    [-((value - loc) ** 2) / (2 * scale ** 2) - log(scale)
     - log(sqrt(2 * pi))]. *)
Definition Normal_log_prob (loc scale value : R) : R :=
  - ((value - loc) ^ 2) / (2 * scale ^ 2) - ln scale - ln (sqrt (2 * PI)).

Definition eps_stab : R := 1 / 1000000.

(** [calc_log_pi(stds, noises, actions)]; the sums run over the last
    dimension, the result has shape [B,1]. *)
Definition calc_log_pi (stds noises actions : list (list R)) : list R :=
  let gaussian_log_probs :=
    map rsum (zipWith (zipWith (Normal_log_prob 0)) stds noises) in
  zipWith Rminus gaussian_log_probs
    (map rsum (map (map (fun a => ln (1 - a ^ 2 + eps_stab))) actions)).

(** [reparameterize(means, log_stds)]; [randn] is the tensor returned by
    [torch.randn_like(means)]. *)
Definition reparameterize (means log_stds randn : list (list R))
  : list (list R) * list R :=
  let stds := map (map exp) log_stds in
  let noises := zipWith (zipWith Rmult) stds randn in
  let tmp := zipWith (zipWith Rplus) noises means in
  let acts := map (map tanh) tmp in
  let log_pis := calc_log_pi stds noises acts in
  (acts, log_pis).

(** The statement of the specification, one batch row at a time. *)

(** The pre-squash variable [u = mean + exp(log_std) * noise]. *)
Definition spec_u (mean log_std noise : list R) : list R :=
  zipWith Rplus mean (zipWith (fun ls n => exp ls * n) log_std noise).

(** [log N(u; mean, std)] of a diagonal Gaussian. *)
Definition spec_gauss_logpdf (mean log_std u : list R) : R :=
  rsum (zipWith (fun ms x => Normal_log_prob (fst ms) (exp (snd ms)) x)
          (combine mean log_std) u).

(** [log N(u; mean, std) - sum_i log(1 - tanh(u_i)^2 + eps_stab)]. *)
Definition spec_log_pi (mean log_std noise : list R) : R :=
  let u := spec_u mean log_std noise in
  spec_gauss_logpdf mean log_std u
  - rsum (map (fun x => ln (1 - tanh x ^ 2 + eps_stab)) u).

Definition spec_action (mean log_std noise : list R) : list R :=
  map tanh (spec_u mean log_std noise).

(** A row-wise function applied to every row of a batch. *)
Definition per_row {X : Type} (f : list R -> list R -> list R -> X)
  (means log_stds randn : list (list R)) : list X :=
  zipWith (fun ml n => f (fst ml) (snd ml) n) (combine means log_stds) randn.

End Squash.

(** ** 32-bit floats

    torch tensors hold IEEE binary32 numbers by default.  The order facts
    about [tanh] depend on the rounding, so the operations of
    [reparameterize] that lead to the actions are also given with it: a
    float operation returns a float nearest to the exact result.
    Infinities and nan are not numbers of the model: an exact result
    beyond the largest float has no rounding. *)

Module Float32.







End Float32.

(** ** Gradient provenance of tensors

    torch records, for every tensor, whether it takes part in the
    autograd graph.  The model keeps, next to the values, the set of
    trainable leaves the tensor depends on through recorded operations:
    the actor parameters, the critic parameters and [alpha].  The
    target-critic parameters have [requires_grad = False] and are never a
    leaf.  An operation run inside [with torch.no_grad()] records
    nothing. *)

Module Autograd.

Record leaves : Type := Leaves
  { on_actor : bool; on_critic : bool; on_alpha : bool }.

Definition detached : leaves := Leaves false false false.
Definition actor_leaf : leaves := Leaves true false false.
Definition critic_leaf : leaves := Leaves false true false.
Definition alpha_leaf : leaves := Leaves false false true.

Definition join (a b : leaves) : leaves :=
  Leaves (on_actor a || on_actor b) (on_critic a || on_critic b)
         (on_alpha a || on_alpha b).

(** What an operation records when run with grad mode [g]. *)
Definition track (g : bool) (l : leaves) : leaves :=
  if g then l else detached.

(** A batch tensor: one entry of type [X] per batch row. *)
Record tensor (X : Type) : Type := T
  { data : list X; requires : leaves }.
Arguments T {X} _ _.
Arguments data {X} _.
Arguments requires {X} _.

(** A zero-dimensional tensor. *)
Record scalar : Type := Sc { value : R; srequires : leaves }.

(** A tensor read from the replay buffer or built from numpy data. *)
Definition from_data {X : Type} (xs : list X) : tensor X := T xs detached.

(** Element-wise binary operation of two tensors of equal shape. *)
Definition pointwise (g : bool) (f : R -> R -> R) (a b : tensor R)
  : tensor R :=
  T (zipWith f (data a) (data b)) (track g (join (requires a) (requires b))).

(** Element-wise unary operation, also a Python float combined with a
    tensor. *)
Definition tmap (g : bool) (f : R -> R) (a : tensor R) : tensor R :=
  T (map f (data a)) (track g (requires a)).

(** A zero-dimensional tensor broadcast against a batch tensor. *)
Definition broadcast (g : bool) (f : R -> R -> R) (s : scalar) (a : tensor R)
  : tensor R :=
  T (map (f (value s)) (data a)) (track g (join (srequires s) (requires a))).

Definition tmean (g : bool) (a : tensor R) : scalar :=
  Sc (mean (data a)) (track g (requires a)).

Definition sneg (g : bool) (s : scalar) : scalar :=
  Sc (- value s) (track g (srequires s)).

End Autograd.
Import Autograd.

(** ** Errors *)

Inductive exception : Type :=
| AssertionError
| ValueError
| RuntimeError.

Inductive result (X : Type) : Type :=
| Ok (x : X)
| Raise (e : exception).
Arguments Ok {X} _.
Arguments Raise {X} _.

Definition bind {X Y : Type} (r : result X) (k : X -> result Y) : result Y :=
  match r with
  | Ok x => k x
  | Raise e => Raise e
  end.

Notation "x <- r ;; k" := (bind r (fun x => k))
  (at level 61, r at next level, right associativity).

(** ** Replay buffer *)

Module Buffer.

Section Experience.
Context {St Act : Type}.

(** The experience dictionary stored by [pfrl]. *)
Record experience : Type := Experience
  { state : St;
    action : Act;
    reward : R;
    next_state : St;
    is_state_terminal : bool }.

(** [pfrl.replay_buffers.ReplayBuffer(capacity)] with its default
    [num_steps = 1]: [memory] is the bounded queue, oldest entry first,
    each entry the list of the last [num_steps] experiences;
    [last_n_transitions] is the pending window. *)
Record pfrl_buffer : Type := PfrlBuffer
  { capacity : nat;
    memory : list (list experience);
    last_n_transitions : list experience }.

(** [RandomAccessQueue.append]: push at the back, then drop from the
    front while the queue is longer than [maxlen]. *)
Definition queue_append (maxlen : nat) (q : list (list experience))
  (x : list experience) : list (list experience) :=
  let q' := q ++ [x] in
  skipn (length q' - maxlen) q'.

(** [pfrl ReplayBuffer.append] for [num_steps = 1]: the window (a deque of
    maximal length one) holds the new experience; a terminal experience
    is flushed and the window emptied, a non-terminal one is stored
    because the window is full. *)
Definition pfrl_append (b : pfrl_buffer) (e : experience) : pfrl_buffer :=
  let window := [e] in
  if is_state_terminal e
  then PfrlBuffer (capacity b) (queue_append (capacity b) (memory b) window) []
  else PfrlBuffer (capacity b) (queue_append (capacity b) (memory b) window)
         window.

(** Removal of the entry at position [i]. *)
Fixpoint remove_at {X : Type} (i : nat) (xs : list X) : list X :=
  match xs, i with
  | [], _ => []
  | _ :: xs', O => xs'
  | x :: xs', S i' => x :: remove_at i' xs'
  end.

(** The index choice of [pfrl.utils.random.sample_n_k] (documented as
    "sample k distinct elements uniformly from range(n)"): [k] picks
    from the pool of indices not chosen yet.  [rnd] are the raw draws of
    the numpy generator, one per pick. *)
Fixpoint pick_distinct (k : nat) (pool : list nat) (rnd : list nat)
  : list nat :=
  match k with
  | O => []
  | S k' =>
      match pool with
      | [] => []
      | _ :: _ =>
          let i := (hd O rnd mod length pool)%nat in
          nth i pool O :: pick_distinct k' (remove_at i pool) (tl rnd)
      end
  end.

(** [sample_n_k(n, k)]. *)
Definition sample_n_k (n : nat) (k : Z) (rnd : list nat) : result (list nat) :=
  if ((0 <=? k) && (k <=? Z.of_nat n))%Z
  then Ok (pick_distinct (Z.to_nat k) (seq 0 n) rnd)
  else Raise ValueError.

(** [pfrl ReplayBuffer.sample(num_experiences)]. *)
Definition pfrl_sample (b : pfrl_buffer) (num_experiences : Z)
  (rnd : list nat) : result (list (list experience)) :=
  if (Z.of_nat (length (memory b)) >=? num_experiences)%Z
  then idx <- sample_n_k (length (memory b)) num_experiences rnd ;;
       Ok (map (fun i => nth i (memory b) []) idx)
  else Raise AssertionError.

(** The class [ReplayBuffer] of algo.py. *)
Record ReplayBuffer : Type := MkReplayBuffer
  { _idx : Z;
    _size : Z;
    buffer_size : nat;
    buf : pfrl_buffer }.

Definition ReplayBuffer_init (buffer_size : nat) : ReplayBuffer :=
  MkReplayBuffer 0 0 buffer_size (PfrlBuffer buffer_size [] []).

Definition append (b : ReplayBuffer) (state : St) (action : Act) (reward : R)
  (done : bool) (next_state : St) : ReplayBuffer :=
  MkReplayBuffer (_idx b) (_size b) (buffer_size b)
    (pfrl_append (buf b) (Experience state action reward next_state done)).

(** The number of stored transitions. *)
Definition logical_size (b : ReplayBuffer) : nat := length (memory (buf b)).

(** The stored transitions, oldest first. *)
Definition stored (b : ReplayBuffer) : list experience :=
  concat (map (firstn 1) (memory (buf b))).

(** The five batched arrays returned by [sample]. *)
Record batch : Type := Batch
  { states : list St;
    acts : list Act;
    rews : list R;
    dones : list R;
    n_states : list St }.

(** [float(flag)]. *)
Definition float_of_bool (flag : bool) : R := if flag then 1 else 0.

(** The five arrays of a list of transitions, aligned by position. *)
Definition batch_of (es : list experience) : batch :=
  Batch (map state es) (map action es) (map reward es)
        (map (fun e => float_of_bool (is_state_terminal e)) es)
        (map next_state es).

(** The loop of [sample] over the observations; [obs[0]] of each. *)
Definition collect (obs : list (list experience)) : batch :=
  batch_of (concat (map (firstn 1) obs)).

(** Every entry of the queue holds one experience, as all entries
    stored with [num_steps = 1] do. *)
Definition well_formed (b : ReplayBuffer) : Prop :=
  Forall (fun w => length w = 1%nat) (memory (buf b)).

(** [ReplayBuffer.sample(batch_size)]; [torch.cat] of an empty list
    raises. *)
Definition sample (b : ReplayBuffer) (batch_size : Z) (rnd : list nat)
  : result batch :=
  obs <- pfrl_sample (buf b) batch_size rnd ;;
  match obs with
  | [] => Raise RuntimeError
  | _ :: _ => Ok (collect obs)
  end.

End Experience.
Arguments experience : clear implicits.
Arguments pfrl_buffer : clear implicits.
Arguments ReplayBuffer : clear implicits.
Arguments batch : clear implicits.

End Buffer.

(** ** Interfaces of the absent collaborators *)

(** The gym environment wrapped by [MyEnv] (env.py).  [env_state] is the
    state of the simulator object; every method returns the state it
    leaves the object in. *)
Class Env (St Act : Type) : Type :=
  { env_state : Type;
    env_seed : env_state -> Z -> env_state;
    env_reset : env_state -> St * env_state;
    (** [env.step(action, flag)]; [SAC.step] leaves the flag at its
        default. *)
    env_step : env_state -> Act -> bool -> (St * R * bool) * env_state;
    action_space_sample : env_state -> Act * env_state;
    generate_mp4 : env_state -> env_state }.

(** The parameters of a network: its parameter tensors in the order of
    [parameters()], each one flattened. *)
Definition params : Type := list (list R).

(** [ActorNetwork] and [CriticNetwork] (SAC_model.py) and the optimizers
    built on their parameters.  The networks are feed-forward: they act on
    each batch row on its own.  [gauss] is the standard normal noise the
    actor draws for one row. *)
Class Networks (St Act : Type) : Type :=
  { gauss : Type;
    (** [actor.sample(states, False)], one row: action and [log_pi]. *)
    actor_sample : params -> gauss -> St -> Act * R;
    (** [actor.sample(states, True)], one row. *)
    actor_mean : params -> St -> Act;
    (** [critic(states, actions)], one row: [q1] and [q2]. *)
    critic_forward : params -> St -> Act -> R * R;
    (** State of [torch.optim.Adam] over a network's parameters, and
        its construction from the parameters and the learning rate. *)
    optim_state : Type;
    optim_init : params -> R -> optim_state;
    (** [zero_grad(); (loss_c1 + loss_c2).backward(); clip_grad_norm_;
        optim_critic.step()]: the new critic parameters, from the critic
        parameters, the batch and the detached targets. *)
    critic_backward_step :
      optim_state -> params -> list St -> list Act -> list R ->
      optim_state * params;
    (** [zero_grad(); loss_actor.backward(); clip_grad_norm_;
        optim_actor.step()]: the new actor parameters, from the actor
        parameters, the critic parameters, [alpha], the states and the
        noise of the sampled actions. *)
    actor_backward_step :
      optim_state -> params -> params -> R -> list St -> (nat -> gauss) ->
      optim_state * params }.

(** ** Adam on a scalar parameter *)

Module Adam.

(** [torch.optim.Adam] with its default [betas = (0.9, 0.999)],
    [eps = 1e-8], no weight decay, no amsgrad. *)
Definition beta1 : R := 9 / 10.
Definition beta2 : R := 999 / 1000.
Definition eps : R := 1 / 100000000.

Record state : Type := State
  { lr : R;
    step_count : nat;
    exp_avg : R;
    exp_avg_sq : R }.

Definition init (lr : R) : state := State lr 0 0 0.

(** One [step()] on the parameter [p] whose gradient is [g]. *)
Definition step (st : state) (p g : R) : state * R :=
  let t := S (step_count st) in
  let m := beta1 * exp_avg st + (1 - beta1) * g in
  let v := beta2 * exp_avg_sq st + (1 - beta2) * (g * g) in
  let bias_correction1 := 1 - beta1 ^ t in
  let bias_correction2 := 1 - beta2 ^ t in
  let step_size := lr st / bias_correction1 in
  let denom := sqrt v / sqrt bias_correction2 + eps in
  (State (lr st) t m v, p - step_size * (m / denom)).

End Adam.

(** ** The SAC algorithm (SAC.py) *)

Module Algo.

Section SAC.
Context {St Act : Type} {E : Env St Act} {N : Networks St Act}.

Record SAC : Type := MkSAC
  { buffer : Buffer.ReplayBuffer St Act;
    actor : params;
    critic : params;
    critic_target : params;
    min_alpha : R;
    alpha : R;
    optim_actor : optim_state;
    optim_critic : optim_state;
    optim_alpha : Adam.state;
    gamma : R;
    tau : R;
    reward_scale : R;
    start_steps : Z;
    batch_size : Z;
    learning_steps : Z;
    total_rew : R }.

Definition set_buffer (a : SAC) (b : Buffer.ReplayBuffer St Act) : SAC :=
  MkSAC b (actor a) (critic a) (critic_target a) (min_alpha a) (alpha a)
    (optim_actor a) (optim_critic a) (optim_alpha a) (gamma a) (tau a)
    (reward_scale a) (start_steps a) (batch_size a) (learning_steps a)
    (total_rew a).

Definition set_total_rew (a : SAC) (r : R) : SAC :=
  MkSAC (buffer a) (actor a) (critic a) (critic_target a) (min_alpha a)
    (alpha a) (optim_actor a) (optim_critic a) (optim_alpha a) (gamma a)
    (tau a) (reward_scale a) (start_steps a) (batch_size a)
    (learning_steps a) r.

Definition set_actor (a : SAC) (o : optim_state) (p : params) : SAC :=
  MkSAC (buffer a) p (critic a) (critic_target a) (min_alpha a) (alpha a)
    o (optim_critic a) (optim_alpha a) (gamma a) (tau a) (reward_scale a)
    (start_steps a) (batch_size a) (learning_steps a) (total_rew a).

Definition set_critic (a : SAC) (o : optim_state) (p : params) : SAC :=
  MkSAC (buffer a) (actor a) p (critic_target a) (min_alpha a) (alpha a)
    (optim_actor a) o (optim_alpha a) (gamma a) (tau a) (reward_scale a)
    (start_steps a) (batch_size a) (learning_steps a) (total_rew a).

Definition set_critic_target (a : SAC) (p : params) : SAC :=
  MkSAC (buffer a) (actor a) (critic a) p (min_alpha a) (alpha a)
    (optim_actor a) (optim_critic a) (optim_alpha a) (gamma a) (tau a)
    (reward_scale a) (start_steps a) (batch_size a) (learning_steps a)
    (total_rew a).

Definition set_alpha (a : SAC) (o : Adam.state) (x : R) : SAC :=
  MkSAC (buffer a) (actor a) (critic a) (critic_target a) (min_alpha a) x
    (optim_actor a) (optim_critic a) o (gamma a) (tau a) (reward_scale a)
    (start_steps a) (batch_size a) (learning_steps a) (total_rew a).

Definition set_learning_steps (a : SAC) (n : Z) : SAC :=
  MkSAC (buffer a) (actor a) (critic a) (critic_target a) (min_alpha a)
    (alpha a) (optim_actor a) (optim_critic a) (optim_alpha a) (gamma a)
    (tau a) (reward_scale a) (start_steps a) (batch_size a) n (total_rew a).

(** [dst.load_state_dict(src)]: every entry of [dst] receives the value of
    the entry of [src] at the same place. *)
Definition load_state_dict (dst src : params) : params :=
  zipWith (zipWith (fun _ x : R => x)) dst src.

(** [SAC.__init__]; [actor0], [critic0] and [target0] are the freshly
    initialised parameters of the three networks. *)
Definition SAC_init (actor0 critic0 target0 : params) (batch_size : Z)
  (gamma lr_actor lr_critic lr_alpha : R) (buffer_size : nat)
  (start_steps : Z) (tau min_alpha reward_scale : R) : SAC :=
  MkSAC (Buffer.ReplayBuffer_init buffer_size) actor0 critic0
    (load_state_dict target0 critic0)
    min_alpha (min_alpha * 3)
    (optim_init actor0 lr_actor) (optim_init critic0 lr_critic)
    (Adam.init lr_alpha)
    gamma tau reward_scale start_steps batch_size 0 0.

(** [Algorithm.explore] and [Algorithm.exploit] (algo.py). *)
Definition explore (a : SAC) (state : St) (noise : gauss) : Act * R :=
  actor_sample (actor a) noise state.

Definition exploit (a : SAC) (state : St) : Act :=
  actor_mean (actor a) state.

Definition is_update (a : SAC) (steps : Z) : bool :=
  (steps >=? Z.max (start_steps a) (batch_size a))%Z.

(** Lines 67-70 of [step]: the action and the environment after the
    choice. *)
Definition choose_action (a : SAC) (env : env_state) (state : St)
  (steps : Z) (noise : gauss) : Act * env_state :=
  if (steps <=? start_steps a)%Z
  then action_space_sample env
  else (fst (explore a state noise), env).

(** [SAC.step(env, state, t, steps)]: the returned pair, the algorithm
    and the environment afterwards. *)
Definition step (a : SAC) (env : env_state) (state : St) (t steps : Z)
  (noise : gauss) : (St * Z) * SAC * env_state :=
  let t := (t + 1)%Z in
  let '(action, env1) := choose_action a env state steps noise in
  let '((n_state, rew, done), env2) := env_step env1 action false in
  let a1 := set_total_rew a (total_rew a + rew) in
  let a2 := set_buffer a1 (Buffer.append (buffer a1) state action rew done
                             n_state) in
  if done
  then let '(n_state', env3) := env_reset env2 in
       ((n_state', 0%Z), set_total_rew a2 0, env3)
  else ((n_state, t), a2, env2).

(** [self.alpha], a leaf of the graph. *)
Definition alpha_t (a : SAC) : scalar := Sc (alpha a) alpha_leaf.

(** [self.actor.sample(states, False)] on a batch; row [i] uses the noise
    [noise i]. *)
Definition actor_call (g : bool) (theta : params) (noise : nat -> gauss)
  (states : tensor St) : tensor Act * tensor R :=
  let out := map (fun p => actor_sample theta (noise (fst p)) (snd p))
               (indexed (data states)) in
  let l := track g (join actor_leaf (requires states)) in
  (T (map fst out) l, T (map snd out) l).

(** A critic network on a batch; [leaf] is [critic_leaf] for
    [self.critic] and [detached] for [self.critic_target]. *)
Definition critic_call (g : bool) (leaf : leaves) (theta : params)
  (states : tensor St) (actions : tensor Act) : tensor R * tensor R :=
  let out := zipWith (critic_forward theta) (data states) (data actions) in
  let l := track g (join leaf (join (requires states) (requires actions))) in
  (T (map fst out) l, T (map snd out) l).

Definition actor_loss_func (a : SAC) (noise : nat -> gauss)
  (states : tensor St) : scalar * tensor R :=
  let '(acts, log_pis) := actor_call true (actor a) noise states in
  let '(q1, q2) := critic_call true critic_leaf (critic a) states acts in
  let loss_actor :=
    tmean true (pointwise true Rminus
                  (broadcast true Rmult (alpha_t a) log_pis)
                  (pointwise true Rmin q1 q2)) in
  (loss_actor, log_pis).

(** Lines 90-95 of [critic_loss_func]: [target_qs]. *)
Definition target_qs (a : SAC) (noise : nat -> gauss)
  (rews dones : tensor R) (n_states : tensor St) : tensor R :=
  (* with torch.no_grad(): *)
  let '(n_actions, log_pis) := actor_call false (actor a) noise n_states in
  let '(q1, q2) :=
    critic_call false detached (critic_target a) n_states n_actions in
  let target_vs :=
    pointwise false Rminus (pointwise false Rmin q1 q2)
      (broadcast false Rmult (alpha_t a) log_pis) in
  (* grad mode is on again *)
  pointwise true Rplus
    (tmap true (Rmult (reward_scale a)) rews)
    (pointwise true Rmult (tmap true (Rmult (gamma a)) target_vs)
       (tmap true (fun d => 1 - d) dones)).

Definition critic_loss_func (a : SAC) (noise : nat -> gauss)
  (states : tensor St) (actions : tensor Act) (rews dones : tensor R)
  (n_states : tensor St) : scalar * scalar :=
  let '(now_q1, now_q2) :=
    critic_call true critic_leaf (critic a) states actions in
  let tq := target_qs a noise rews dones n_states in
  let loss_c1 :=
    tmean true (tmap true (fun x => x ^ 2) (pointwise true Rminus now_q1 tq)) in
  let loss_c2 :=
    tmean true (tmap true (fun x => x ^ 2) (pointwise true Rminus now_q2 tq)) in
  (loss_c1, loss_c2).

Definition update_critic (a : SAC) (noise : nat -> gauss)
  (b : Buffer.batch St Act) : SAC * (R * R) :=
  let states := from_data (Buffer.states b) in
  let actions := from_data (Buffer.acts b) in
  let rews := from_data (Buffer.rews b) in
  let dones := from_data (Buffer.dones b) in
  let n_states := from_data (Buffer.n_states b) in
  let '(loss_c1, loss_c2) :=
    critic_loss_func a noise states actions rews dones n_states in
  let '(o, p) :=
    critic_backward_step (optim_critic a) (critic a) (data states)
      (data actions) (data (target_qs a noise rews dones n_states)) in
  (set_critic a o p, (value loss_c1, value loss_c2)).

(** Lines 135-137 of [entropy_adjust_func]: the loss. *)
Definition entropy_loss (a : SAC) (log_pis : tensor R) : scalar :=
  (* with torch.no_grad(): *)
  let loss := tmap false (fun x => x + min_alpha a) log_pis in
  (* grad mode is on again *)
  sneg true (tmean true (broadcast true Rmult (alpha_t a) loss)).

(** [alpha.grad] after [loss.backward()]: the derivative of
    [-(alpha * c).mean()] in [alpha], for the detached values
    [c = log_pis + min_alpha]. *)
Definition entropy_grad (a : SAC) (log_pis : tensor R) : R :=
  - mean (map (fun x => x + min_alpha a) (data log_pis)).

Definition entropy_adjust_func (a : SAC) (log_pis : tensor R) : SAC :=
  let '(o, x) :=
    Adam.step (optim_alpha a) (alpha a) (entropy_grad a log_pis) in
  set_alpha a o x.

(** Lines 112-117 of [update_actor]: the step of the actor optimizer. *)
Definition actor_optimizer_step (a : SAC) (noise : nat -> gauss)
  (states : tensor St) : SAC :=
  let '(o, p) :=
    actor_backward_step (optim_actor a) (actor a) (critic a) (alpha a)
      (data states) noise in
  set_actor a o p.

Definition update_actor (a : SAC) (noise : nat -> gauss)
  (states : tensor St) : SAC * R :=
  let '(loss_actor, log_pis) := actor_loss_func a noise states in
  let a1 := actor_optimizer_step a noise states in
  let a2 := entropy_adjust_func a1 log_pis in
  (a2, value loss_actor).

Definition soft_update (tau : R) (target trained : list R) : list R :=
  zipWith (fun t x => t * (1 - tau) + tau * x) target trained.

Definition update_target (a : SAC) : SAC :=
  set_critic_target a
    (zipWith (soft_update (tau a)) (critic_target a) (critic a)).

(** [SAC.update()]: [rnd] feeds the buffer sampling, [noise1] and
    [noise2] the two policy samplings. *)
Definition update (a : SAC) (rnd : list nat) (noise1 noise2 : nat -> gauss)
  : result (SAC * (R * R * R)) :=
  let a0 := set_learning_steps a (learning_steps a + 1)%Z in
  b <- Buffer.sample (buffer a0) (batch_size a0) rnd ;;
  let '(a1, (l_c1, l_c2)) := update_critic a0 noise1 b in
  let '(a2, l_a1) := update_actor a1 noise2 (from_data (Buffer.states b)) in
  Ok (update_target a2, (l_a1, l_c1, l_c2)).

(** The log-probabilities that [update] hands to [entropy_adjust_func]:
    those of the actor loss on the sampled states. *)
Definition update_log_pis (a : SAC) (rnd : list nat)
  (noise2 : nat -> gauss) : result (tensor R) :=
  b <- Buffer.sample (buffer a) (batch_size a) rnd ;;
  Ok (snd (actor_loss_func a noise2 (from_data (Buffer.states b)))).

(** The states of the algorithm reached from [a0] by calls of [step] and
    [update]; [P] is a condition on the algorithm and the
    log-probabilities at every entropy step of the run. *)
Inductive run (P : SAC -> tensor R -> Prop) (a0 : SAC) : SAC -> Prop :=
| run_init : run P a0 a0
| run_step (a : SAC) (env : env_state) (state : St) (t steps : Z)
    (noise : gauss) :
    run P a0 a ->
    run P a0 (snd (fst (step a env state t steps noise)))
| run_update (a a' : SAC) (rnd : list nat) (noise1 noise2 : nat -> gauss)
    (losses : R * R * R) (log_pis : tensor R) :
    run P a0 a ->
    update a rnd noise1 noise2 = Ok (a', losses) ->
    update_log_pis a rnd noise2 = Ok log_pis ->
    P a log_pis ->
    run P a0 a'.

(** What the moment estimates of the optimizer of [alpha] satisfy while
    every gradient it has seen is non-positive. *)
Definition alpha_inv (a : SAC) : Prop :=
  0 <= alpha a /\ 0 <= Adam.lr (optim_alpha a) /\
  Adam.exp_avg (optim_alpha a) <= 0 /\ 0 <= Adam.exp_avg_sq (optim_alpha a).

(** The statements of the specification, one batch row at a time. *)

(** [reward_scale * r + gamma * (1 - done) * (min(target_q1(s', a'),
    target_q2(s', a')) - alpha * log_pi(a'|s'))] with [a'] and its
    log-probability drawn from the policy at [s'] with the noise [eps]. *)
Definition spec_target_q (a : SAC) (eps : gauss) (r d : R) (s' : St) : R :=
  let a' := fst (actor_sample (actor a) eps s') in
  let log_pi := snd (actor_sample (actor a) eps s') in
  let tq := critic_forward (critic_target a) s' a' in
  reward_scale a * r
  + gamma a * (1 - d) * (Rmin (fst tq) (snd tq) - alpha a * log_pi).

(** [alpha * log_pi(a|s) - min(q1(s,a), q2(s,a))] with [a] drawn from the
    policy at [s] with the noise [eps]. *)
Definition spec_actor_loss_row (a : SAC) (eps : gauss) (s : St) : R :=
  let act := fst (actor_sample (actor a) eps s) in
  let log_pi := snd (actor_sample (actor a) eps s) in
  let q := critic_forward (critic a) s act in
  alpha a * log_pi - Rmin (fst q) (snd q).

(** Two parameter sets of one architecture. *)
Definition same_shape (p q : params) : Prop :=
  Forall2 (fun x y : list R => length x = length y) p q.

End SAC.
Arguments SAC St Act {N}.

End Algo.

(** ** The trainer (algo.py) *)

Module Train.
Import Algo.

Section Trainer.
Context {St Act : Type} {E : Env St Act} {N : Networks St Act}.

(** Environment objects live in a store; a trainer holds references to
    them, so that two attributes bound to one object share its state. *)
Definition ref : Type := nat.
Definition heap : Type := ref -> env_state.

Definition store (h : heap) (r : ref) (e : env_state) : heap :=
  fun r' => if Nat.eqb r' r then e else h r'.

Record Trainer : Type := MkTrainer
  { env : ref;
    env_test : ref;
    algo : SAC St Act;
    returns : list (Z * R);
    num_steps : Z;
    eval_interval : Z;
    num_eval_episodes : Z;
    eval_id : Z }.

(** [Trainer.__init__(env, algo, seed, num_steps, eval_interval,
    num_eval_episodes)]. *)
Definition Trainer_init (h : heap) (env : ref) (algo : SAC St Act)
  (seed num_steps eval_interval num_eval_episodes : Z) : Trainer * heap :=
  let self_env := env in
  let self_env_test := env in
  (MkTrainer self_env self_env_test algo [] num_steps eval_interval
     num_eval_episodes 0,
   store h self_env (env_seed (h self_env) seed)).

(** The [while (not done)] loop of [evaluate]; [None] when the episode
    has not ended within [fuel] steps. *)
Fixpoint run_episode (fuel : nat) (a : SAC St Act) (e : env_state)
  (state : St) (episode_return : R) : option (R * env_state) :=
  match fuel with
  | O => None
  | S fuel' =>
      let action := exploit a state in
      let '((state', reward, done), e') := env_step e action true in
      let episode_return' := episode_return + reward in
      if done then Some (episode_return', e')
      else run_episode fuel' a e' state' episode_return'
  end.

(** The [for _ in range(self.num_eval_episodes)] loop. *)
Fixpoint eval_episodes (fuel : nat) (n : nat) (a : SAC St Act)
  (e : env_state) (returns : list R) (ave_rew : R)
  : option (list R * R * env_state) :=
  match n with
  | O => Some (returns, ave_rew, e)
  | S n' =>
      let '(state, e1) := env_reset e in
      match run_episode fuel a e1 state 0 with
      | None => None
      | Some (episode_return, e2) =>
          eval_episodes fuel n' a e2 (returns ++ [episode_return])
            (ave_rew + episode_return)
      end
  end.

(** [Trainer.evaluate(steps)]: the returned average, the trainer and the
    store afterwards. *)
Definition evaluate (fuel : nat) (tr : Trainer) (h : heap) (steps : Z)
  : option (R * Trainer * heap) :=
  match eval_episodes fuel (Z.to_nat (num_eval_episodes tr)) (algo tr)
          (h (env_test tr)) [] 0 with
  | None => None
  | Some (rets, ave_rew, e) =>
      let ave_rew := ave_rew / IZR (num_eval_episodes tr) in
      let mean_return := mean rets in
      let tr' :=
        MkTrainer (env tr) (env_test tr) (algo tr)
          (returns tr ++ [(steps, mean_return)]) (num_steps tr)
          (eval_interval tr) (num_eval_episodes tr) (eval_id tr) in
      Some (ave_rew, tr', store h (env_test tr) (generate_mp4 e))
  end.

(** The call [self.algo.step(self.env, state, t, steps)] of the loop of
    [train]. *)
Definition train_step (tr : Trainer) (h : heap) (state : St) (t steps : Z)
  (noise : gauss) : (St * Z) * Trainer * heap :=
  let '(r, a, e) := step (algo tr) (h (env tr)) state t steps noise in
  (r,
   MkTrainer (env tr) (env_test tr) a (returns tr) (num_steps tr)
     (eval_interval tr) (num_eval_episodes tr) (eval_id tr),
   store h (env tr) e).

End Trainer.
Arguments Trainer St Act {N}.

End Train.

(** ** A small environment and constant networks

    Used to run the definitions on concrete inputs.  The environment
    counts the steps of the episode, pays reward 1 per step and ends an
    episode at its third step; states and actions are numbers. *)

Module Toy.

#[export] Instance counter_env : Env nat nat :=
  {| env_state := nat;
     env_seed := fun e _ => e;
     env_reset := fun _ => (O, O);
     env_step := fun e _ _ => ((S e, 1, Nat.leb 3 (S e)), S e);
     action_space_sample := fun e => (7%nat, e);
     generate_mp4 := fun e => e |}.

#[export] Instance const_nets : Networks nat nat :=
  {| gauss := R;
     actor_sample := fun _ noise _ => (5%nat, noise);
     actor_mean := fun _ _ => 4%nat;
     critic_forward := fun _ s _ => (INR s, 2);
     optim_state := unit;
     optim_init := fun _ _ => tt;
     critic_backward_step := fun o p _ _ _ => (o, p);
     actor_backward_step := fun o p _ _ _ _ => (o, p) |}.

(** [SAC(..., batch_size=1, start_steps=1, min_alpha=0.0)], the other
    hyper-parameters at their defaults. *)
Definition greedy_sac : Algo.SAC nat nat :=
  Algo.SAC_init [[1]] [[2]] [[3]] 1 (99 / 100) (3 / 10000) (3 / 10000)
    (3 / 10000) 5000 1 (5 / 1000) 0 1.

(** [SAC(..., tau=0.0)]. *)
Definition zero_tau_sac : Algo.SAC nat nat :=
  Algo.SAC_init [[1]] [[2]] [[3]] 256 (99 / 100) (3 / 10000) (3 / 10000)
    (3 / 10000) 5000 5000 0 (1 / 10) 1.

(** [greedy_sac] after its first environment step, on a fresh
    environment. *)
Definition after_one_step : Algo.SAC nat nat :=
  snd (fst (Algo.step greedy_sac 0%nat 0%nat 0 1 0)).

(** [SAC(..., tau=1.0)]. *)
Definition unit_tau_sac : Algo.SAC nat nat :=
  Algo.SAC_init [[1]] [[2]] [[3]] 256 (99 / 100) (3 / 10000) (3 / 10000)
    (3 / 10000) 5000 5000 1 (1 / 10) 1.

(** A buffer of capacity 2 after three appends. *)
Definition overfull : Buffer.ReplayBuffer nat nat :=
  Buffer.append
    (Buffer.append
       (Buffer.append (Buffer.ReplayBuffer_init 2) 0%nat 7%nat 0 false 1%nat)
       1%nat 7%nat 1 false 2%nat)
    2%nat 7%nat 2 true 3%nat.

(** A buffer of capacity 10 after two appends. *)
Definition two_transitions : Buffer.ReplayBuffer nat nat :=
  Buffer.append
    (Buffer.append (Buffer.ReplayBuffer_init 10) 0%nat 7%nat 0 false 1%nat)
    1%nat 7%nat 1 false 2%nat.

(** [SAC(...)] with the default hyper-parameters of the constructor and
    one-entry networks. *)
Definition default_sac : Algo.SAC nat nat :=
  Algo.SAC_init [[1]] [[2]] [[3]] 256 (99 / 100) (3 / 10000) (3 / 10000)
    (3 / 10000) 5000 5000 (5 / 1000) (1 / 10) 1.

End Toy.

(** ** The training loop (algo.py) and the script train.py *)

Module Loop.
Import Algo Train.

Section Training.
Context {St Act : Type} {E : Env St Act} {N : Networks St Act}.

(** A buffer after the appends of a list of transitions, oldest first. *)
Definition append_all (b : Buffer.ReplayBuffer St Act)
  (es : list (Buffer.experience St Act)) : Buffer.ReplayBuffer St Act :=
  fold_left
    (fun b e =>
       Buffer.append b (Buffer.state e) (Buffer.action e) (Buffer.reward e)
         (Buffer.is_state_terminal e) (Buffer.next_state e))
    es b.

(** The states of the algorithm after [k] calls of [step], with any
    number of successful [update] calls in between. *)
Inductive after_steps (a0 : SAC St Act) : nat -> SAC St Act -> Prop :=
| after_init : after_steps a0 O a0
| after_step (k : nat) (a : SAC St Act) (env : env_state) (state : St)
    (t steps : Z) (noise : gauss) :
    after_steps a0 k a ->
    after_steps a0 (S k) (snd (fst (step a env state t steps noise)))
| after_update (k : nat) (a a' : SAC St Act) (rnd : list nat)
    (noise1 noise2 : nat -> gauss) (losses : R * R * R) :
    after_steps a0 k a ->
    update a rnd noise1 noise2 = Ok (a', losses) ->
    after_steps a0 k a'.

(** How a run of [train] can end early: an exception of the algorithm,
    the division by zero of [steps % self.eval_interval] or of
    [ave_rew /= self.num_eval_episodes], or an evaluation episode that
    does not end within the fuel. *)
Inductive failure : Type :=
| Exception (e : exception)
| ZeroDivisionError
| Diverges.

Inductive outcome (X : Type) : Type :=
| Finished (x : X)
| Failed (f : failure).
Arguments Finished {X} _.
Arguments Failed {X} _.

(** The random draws of one iteration: the noise of the action, the
    draws of the buffer sampling and the noise of the two policy
    samplings of [update]. *)
Record draws : Type := Draws
  { step_noise : gauss;
    sample_rnd : list nat;
    critic_noise : nat -> gauss;
    actor_noise : nat -> gauss }.

(** The variables of the loop of [train]: the trainer, the store of
    environment objects, [state] and [t]. *)
Record loop : Type := MkLoop
  { trainer : Trainer St Act;
    world : heap;
    state : St;
    t : Z }.

Definition set_algo (tr : Trainer St Act) (a : SAC St Act) : Trainer St Act :=
  MkTrainer (env tr) (env_test tr) a (returns tr) (num_steps tr)
    (eval_interval tr) (num_eval_episodes tr) (eval_id tr).

(** The body of the loop of [train] for the step count [steps].  The
    scalars given to the summary writer and the files written by
    [torch.save] are not part of the model. *)
Definition train_iteration (fuel : nat) (l : loop) (steps : Z) (d : draws)
  : outcome loop :=
  let '((state', t'), tr1, h1) :=
    train_step (trainer l) (world l) (state l) (t l) steps (step_noise d) in
  let updated :=
    if is_update (algo tr1) steps
    then match update (algo tr1) (sample_rnd d) (critic_noise d)
                 (actor_noise d) with
         | Ok (a, _) => Finished (set_algo tr1 a)
         | Raise e => Failed (Exception e)
         end
    else Finished tr1 in
  match updated with
  | Failed f => Failed f
  | Finished tr2 =>
      if (eval_interval tr2 =? 0)%Z then Failed ZeroDivisionError
      else if (steps mod eval_interval tr2 =? 0)%Z
      then if (num_eval_episodes tr2 =? 0)%Z then Failed ZeroDivisionError
           else match evaluate fuel tr2 h1 steps with
                | Some (_, tr3, h3) => Finished (MkLoop tr3 h3 state' t')
                | None => Failed Diverges
                end
      else Finished (MkLoop tr2 h1 state' t')
  end.

(** [n] iterations of the loop, the first one for the step count
    [steps]; [d] gives the draws of every iteration. *)
Fixpoint train_from (fuel : nat) (n : nat) (steps : Z) (l : loop)
  (d : Z -> draws) : outcome loop :=
  match n with
  | O => Finished l
  | S n' =>
      match train_iteration fuel l steps (d steps) with
      | Failed f => Failed f
      | Finished l' => train_from fuel n' (steps + 1)%Z l' d
      end
  end.

(** [Trainer.train()]: the reset of the environment, then the loop over
    [range(1, self.num_steps + 1)]. *)
Definition train (fuel : nat) (tr : Trainer St Act) (h : heap)
  (d : Z -> draws) : outcome loop :=
  let '(state, e) := env_reset (h (env tr)) in
  train_from fuel (Z.to_nat (num_steps tr)) 1
    (MkLoop tr (store h (env tr) e) state 0) d.

(** The rewards of one evaluation episode in the order of its steps, and
    the environment afterwards; [None] when the episode has not ended
    within [fuel] steps. *)
Fixpoint episode_rewards (fuel : nat) (a : SAC St Act) (e : env_state)
  (state : St) : option (list R * env_state) :=
  match fuel with
  | O => None
  | S fuel' =>
      let '((state', reward, done), e') :=
        env_step e (exploit a state) true in
      if done then Some ([reward], e')
      else match episode_rewards fuel' a e' state' with
           | None => None
           | Some (rewards, e'') => Some (reward :: rewards, e'')
           end
  end.

(** The rewards of [n] episodes run one after the other on one
    environment, each one after a reset. *)
Fixpoint episodes (fuel : nat) (n : nat) (a : SAC St Act) (e : env_state)
  : option (list (list R) * env_state) :=
  match n with
  | O => Some ([], e)
  | S n' =>
      let '(state, e1) := env_reset e in
      match episode_rewards fuel a e1 state with
      | None => None
      | Some (rewards, e2) =>
          match episodes fuel n' a e2 with
          | None => None
          | Some (rest, e3) => Some (rewards :: rest, e3)
          end
      end
  end.

(** How a call of [Trainer.evaluate(steps)] ends, on any trainer object. *)
Inductive evaluated : Type :=
| Returns (ave_rew : R) (tr : Trainer St Act) (h : heap)
| RaisesZeroDivisionError (h : heap)
| RaisesAttributeError (tr : Trainer St Act) (h : heap)
| Unfinished.

(** [Trainer.evaluate(steps)] with its two ways to raise.  The division
    [ave_rew /= self.num_eval_episodes] raises for 0 episodes.  The
    [print] reads the property [self.time], which reads
    [self.start_time]: an attribute that [train()] sets in its first
    statement and the constructor does not.  [started] tells whether it
    is set; without it the call raises after the entry of [returns] was
    appended and before [generate_mp4].  For a negative number of
    episodes [np.mean] of the empty list is nan, a value the model does
    not have: the statements about [evaluate_call] take at least one
    episode. *)
Definition evaluate_call (started : bool) (fuel : nat) (tr : Trainer St Act)
  (h : heap) (steps : Z) : evaluated :=
  match eval_episodes fuel (Z.to_nat (num_eval_episodes tr)) (algo tr)
          (h (env_test tr)) [] 0 with
  | None => Unfinished
  | Some (rets, ave_rew, e) =>
      if (num_eval_episodes tr =? 0)%Z
      then RaisesZeroDivisionError (store h (env_test tr) e)
      else
        let ave_rew := ave_rew / IZR (num_eval_episodes tr) in
        let mean_return := mean rets in
        let tr' :=
          MkTrainer (env tr) (env_test tr) (algo tr)
            (returns tr ++ [(steps, mean_return)]) (num_steps tr)
            (eval_interval tr) (num_eval_episodes tr) (eval_id tr) in
        if started
        then Returns ave_rew tr' (store h (env_test tr) (generate_mp4 e))
        else RaisesAttributeError tr' (store h (env_test tr) e)
  end.

(** What a trainer and its algorithm keep, and what they count, over
    one iteration that ends without a failure. *)
Record iteration_facts (steps : Z) (tr tr' : Trainer St Act) : Prop :=
  IterationFacts
  { it_interval : eval_interval tr <> 0%Z;
    it_num_steps : num_steps tr' = num_steps tr;
    it_eval_interval : eval_interval tr' = eval_interval tr;
    it_env : env tr' = env tr;
    it_returns :
      length (returns tr')
      = (length (returns tr)
         + (if (steps mod eval_interval tr =? 0)%Z then 1 else 0))%nat;
    it_size :
      Buffer.logical_size (buffer (algo tr'))
      = Nat.min (S (Buffer.logical_size (buffer (algo tr))))
          (Buffer.capacity (Buffer.buf (buffer (algo tr))));
    it_capacity :
      Buffer.capacity (Buffer.buf (buffer (algo tr')))
      = Buffer.capacity (Buffer.buf (buffer (algo tr)));
    it_start_steps : start_steps (algo tr') = start_steps (algo tr);
    it_batch_size : batch_size (algo tr') = batch_size (algo tr);
    it_quiet :
      is_update (algo tr) steps = false ->
      actor (algo tr') = actor (algo tr) /\
      critic (algo tr') = critic (algo tr) /\
      critic_target (algo tr') = critic_target (algo tr) /\
      alpha (algo tr') = alpha (algo tr) /\
      learning_steps (algo tr') = learning_steps (algo tr) }.

(** The constants of train.py. *)
Definition SEED : Z := 0.
Definition REWARD_SCALE : R := 1.
Definition NUM_STEPS : Z := 3 * 10 ^ 6.
Definition START_STEP : Z := 5 * 10 ^ 6.
Definition EVAL_INTERVAL : Z := 5 * 10 ^ 4.
Definition BATCH_SIZE : Z := 256.
Definition BUFFER_SIZE : nat := 10 * 6.

(** The [SAC(...)] of train.py, the arguments it does not pass at the
    defaults of the constructor. *)
Definition script_algo (actor0 critic0 target0 : params) : SAC St Act :=
  SAC_init actor0 critic0 target0 BATCH_SIZE (99 / 100) (3 / 10000)
    (3 / 10000) (3 / 10000) BUFFER_SIZE START_STEP (5 / 1000) (1 / 10)
    REWARD_SCALE.

(** The [Trainer(...)] of train.py. *)
Definition script_trainer (h : heap) (r : ref) (a : SAC St Act)
  : Trainer St Act * heap :=
  Trainer_init h r a SEED NUM_STEPS EVAL_INTERVAL 1.

End Training.
Arguments Finished {X} _.
Arguments Failed {X} _.
Arguments loop St Act {E N}.
Arguments draws St Act {N}.

End Loop.

(** ** Short runs on the small environment *)

Module ToyRuns.
Import Algo Train Loop Toy.

(** The draws of every iteration: no noise, the first index offered to
    every pick of the sampling. *)
Definition still : Z -> draws nat nat :=
  fun _ => Draws 0 [] (fun _ => 0) (fun _ => 0).

(** A trainer on [default_sac] with a budget of two steps and an
    evaluation of one episode after every step. *)
Definition short_trainer : Trainer nat nat * heap :=
  Trainer_init (fun _ => O) O default_sac 0 2 1 1.

(** The [SAC(...)] of train.py on the one-entry networks. *)
Definition script_sac : SAC nat nat := script_algo [[1]] [[2]] [[3]].

End ToyRuns.

(** ** Lists as tensors: position-wise reading *)

Module TensorFacts.

Lemma nth_error_zipWith {A B C : Type} (f : A -> B -> C) (xs : list A)
  (ys : list B) (i : nat) :
  nth_error (zipWith f xs ys) i
  = match nth_error xs i, nth_error ys i with
    | Some x, Some y => Some (f x y)
    | _, _ => None
    end.
Proof.
  revert ys i. induction xs as [|x xs IH]; intros [|y ys] [|i]; simpl;
    try reflexivity.
  - destruct (nth_error xs i); reflexivity.
  - apply IH.
Qed.

Lemma nth_error_combine_seq {X : Type} (xs : list X) (start i : nat) :
  nth_error (combine (seq start (length xs)) xs) i
  = option_map (fun x => ((start + i)%nat, x)) (nth_error xs i).
Proof.
  revert start i. induction xs as [|x xs IH]; intros start [|i]; simpl;
    try reflexivity.
  - rewrite Nat.add_0_r. reflexivity.
  - rewrite IH. rewrite Nat.add_succ_r. reflexivity.
Qed.

Lemma nth_error_indexed {X : Type} (xs : list X) (i : nat) :
  nth_error (indexed xs) i = option_map (pair i) (nth_error xs i).
Proof. unfold indexed. apply nth_error_combine_seq. Qed.

Lemma map_snd_indexed {X : Type} (xs : list X) : map snd (indexed xs) = xs.
Proof.
  unfold indexed. generalize 0%nat.
  induction xs as [|x xs IH]; intro start; simpl; [reflexivity|].
  rewrite IH. reflexivity.
Qed.

Lemma zipWith_map {A B C D : Type} (f : B -> C -> D) (g : A -> B)
  (h : A -> C) (xs : list A) :
  zipWith f (map g xs) (map h xs) = map (fun x => f (g x) (h x)) xs.
Proof.
  induction xs as [|x xs IH]; simpl; [reflexivity|]. rewrite IH.
  reflexivity.
Qed.


End TensorFacts.

(** ** Properties of the squashed Gaussian helpers *)

Module SquashFacts.
Import Squash.

Lemma cosh_pos (x : R) : 0 < cosh x.
Proof.
  unfold cosh. pose proof (exp_pos x). pose proof (exp_pos (- x)). lra.
Qed.

Lemma tanh_range (x : R) : -1 < tanh x < 1.
Proof.
  unfold tanh. pose proof (cosh_pos x) as Hc.
  assert (Hs : - cosh x < sinh x < cosh x).
  { unfold sinh, cosh. pose proof (exp_pos x). pose proof (exp_pos (- x)).
    lra. }
  split.
  - apply Rmult_lt_reg_r with (cosh x); [exact Hc|].
    unfold Rdiv. rewrite Rmult_assoc, Rinv_l by lra. lra.
  - apply Rmult_lt_reg_r with (cosh x); [exact Hc|].
    unfold Rdiv. rewrite Rmult_assoc, Rinv_l by lra. lra.
Qed.

Lemma Normal_log_prob_shift (m sd x : R) :
  Normal_log_prob 0 sd x = Normal_log_prob m sd (m + x).
Proof.
  unfold Normal_log_prob. replace (m + x - m) with (x - 0) by ring.
  reflexivity.
Qed.

Lemma row_action (d : nat) (m ls n : list R) :
  length m = d -> length ls = d -> length n = d ->
  map tanh (zipWith Rplus (zipWith Rmult (map exp ls) n) m)
  = spec_action m ls n.
Proof.
  unfold spec_action, spec_u. revert m ls n.
  induction d as [|d IH]; intros [|x m] [|l ls] [|e n]; simpl;
    try discriminate; try reflexivity.
  intros Hm Hl Hn. injection Hm as Hm. injection Hl as Hl.
  injection Hn as Hn.
  rewrite (IH m ls n Hm Hl Hn). f_equal. f_equal. ring.
Qed.

Lemma row_gauss (d : nat) (m ls n : list R) :
  length m = d -> length ls = d -> length n = d ->
  rsum (zipWith (Normal_log_prob 0) (map exp ls)
          (zipWith Rmult (map exp ls) n))
  = spec_gauss_logpdf m ls (spec_u m ls n).
Proof.
  unfold spec_gauss_logpdf, spec_u. revert m ls n.
  induction d as [|d IH]; intros [|x m] [|l ls] [|e n]; simpl;
    try discriminate; try reflexivity.
  intros Hm Hl Hn. injection Hm as Hm. injection Hl as Hl.
  injection Hn as Hn.
  rewrite (IH m ls n Hm Hl Hn). f_equal. apply Normal_log_prob_shift.
Qed.

Lemma row_log_pi (d : nat) (m ls n : list R) :
  length m = d -> length ls = d -> length n = d ->
  rsum (zipWith (Normal_log_prob 0) (map exp ls)
          (zipWith Rmult (map exp ls) n))
  - rsum (map (fun a => ln (1 - a ^ 2 + eps_stab))
            (map tanh (zipWith Rplus (zipWith Rmult (map exp ls) n) m)))
  = spec_log_pi m ls n.
Proof.
  intros Hm Hl Hn. unfold spec_log_pi.
  rewrite (row_gauss d m ls n Hm Hl Hn).
  rewrite (row_action d m ls n Hm Hl Hn).
  unfold spec_action. rewrite map_map. reflexivity.
Qed.

Lemma shape2_cons (B d : nat) (row : list R) (t : list (list R)) :
  shape2 B d (row :: t) ->
  exists B', B = S B' /\ length row = d /\ shape2 B' d t.
Proof.
  intros [Hlen Hrows]. simpl in Hlen. inversion Hrows; subst.
  exists (length t). repeat split; auto.
Qed.

Lemma shape2_nil_inv (B d : nat) : shape2 B d [] -> B = O.
Proof. intros [Hlen _]. simpl in Hlen. auto. Qed.

Lemma Forall_tanh_range (xs : list R) :
  Forall (fun a => -1 < a < 1) (map tanh xs).
Proof.
  induction xs as [|x xs IH]; simpl; constructor; auto using tanh_range.
Qed.

(** In exact arithmetic: for every batch of means, log-stds and standard
    normal noise of one shape, [reparameterize] returns the actions
    [tanh(mean + exp(log_std) * noise)], each component strictly between
    -1 and 1, and the log-probability [log N(u; mean, std)] of the
    pre-squash variable minus the sum over the action dimensions of
    [log(1 - tanh(u_i)^2 + 1e-6)]. *)
Lemma reparameterize_exact (B d : nat)
  (means log_stds randn : list (list R)) :
  shape2 B d means -> shape2 B d log_stds -> shape2 B d randn ->
  fst (reparameterize means log_stds randn)
    = per_row spec_action means log_stds randn /\
  Forall (Forall (fun a => -1 < a < 1))
    (fst (reparameterize means log_stds randn)) /\
  snd (reparameterize means log_stds randn)
    = per_row spec_log_pi means log_stds randn /\
  eps_stab * 1000000 = 1.
Proof.
  intros Hm Hl Hn.
  assert (Hrange : Forall (Forall (fun a => -1 < a < 1))
                     (fst (reparameterize means log_stds randn))).
  { unfold reparameterize. simpl.
    induction (zipWith (zipWith Rplus)
                 (zipWith (zipWith Rmult) (map (map exp) log_stds) randn)
                 means) as [|row rows IH]; simpl; constructor; auto.
    apply Forall_tanh_range. }
  split; [|split; [exact Hrange|split; [|unfold eps_stab; lra]]].
  - clear Hrange. unfold reparameterize, per_row. simpl.
    revert B log_stds randn Hm Hl Hn.
    induction means as [|m means IH]; intros B [|ls log_stds] [|n randn]
      Hm Hl Hn; simpl; try reflexivity;
      try (apply shape2_nil_inv in Hl; apply shape2_cons in Hm;
           destruct Hm as (B' & -> & _); discriminate);
      try (apply shape2_nil_inv in Hn; apply shape2_cons in Hm;
           destruct Hm as (B' & -> & _); discriminate).
    apply shape2_cons in Hm. destruct Hm as (B1 & HB1 & Hdm & Hm).
    apply shape2_cons in Hl. destruct Hl as (B2 & HB2 & Hdl & Hl).
    apply shape2_cons in Hn. destruct Hn as (B3 & HB3 & Hdn & Hn).
    assert (B2 = B1) by lia. assert (B3 = B1) by lia. subst B2 B3.
    f_equal.
    + apply (row_action d); assumption.
    + apply (IH B1); assumption.
  - clear Hrange. unfold reparameterize, calc_log_pi, per_row. simpl.
    revert B log_stds randn Hm Hl Hn.
    induction means as [|m means IH]; intros B [|ls log_stds] [|n randn]
      Hm Hl Hn; simpl; try reflexivity;
      try (apply shape2_nil_inv in Hl; apply shape2_cons in Hm;
           destruct Hm as (B' & -> & _); discriminate);
      try (apply shape2_nil_inv in Hn; apply shape2_cons in Hm;
           destruct Hm as (B' & -> & _); discriminate);
      try (apply shape2_nil_inv in Hm; apply shape2_cons in Hl;
           destruct Hl as (B' & -> & _); discriminate).
    apply shape2_cons in Hm. destruct Hm as (B1 & HB1 & Hdm & Hm).
    apply shape2_cons in Hl. destruct Hl as (B2 & HB2 & Hdl & Hl).
    apply shape2_cons in Hn. destruct Hn as (B3 & HB3 & Hdn & Hn).
    assert (B2 = B1) by lia. assert (B3 = B1) by lia. subst B2 B3.
    f_equal.
    + apply (row_log_pi d); assumption.
    + apply (IH B1); assumption.
Qed.

End SquashFacts.

(** ** Properties of the float actions *)

Module Float32Facts.
Import Squash Float32.






















(** *** The float computation returns *)















End Float32Facts.


(** ** Properties of the replay buffer *)

Module BufferFacts.
Import Buffer.

Section Facts.
Context {St Act : Type}.
Implicit Types b : ReplayBuffer St Act.

Lemma remove_at_length {X : Type} (i : nat) (xs : list X) :
  (i < length xs)%nat -> length (remove_at i xs) = (length xs - 1)%nat.
Proof.
  revert i. induction xs as [|x xs IH]; intros [|i] H; simpl in *;
    try lia.
  rewrite IH by lia. lia.
Qed.

Lemma remove_at_In {X : Type} (i : nat) (xs : list X) (x : X) :
  In x (remove_at i xs) -> In x xs.
Proof.
  revert i. induction xs as [|y xs IH]; intros [|i] H; simpl in *; auto.
  destruct H as [H|H]; [left; exact H | right; exact (IH i H)].
Qed.

Lemma remove_at_NoDup {X : Type} (i : nat) (xs : list X) :
  NoDup xs -> NoDup (remove_at i xs).
Proof.
  intro H. revert i. induction H as [|y xs Hy Hxs IH]; intros [|i]; simpl;
    try constructor; auto.
  intro Hin. apply Hy. exact (remove_at_In i xs y Hin).
Qed.

Lemma remove_at_nth_fresh {X : Type} (i : nat) (xs : list X) (d : X) :
  NoDup xs -> (i < length xs)%nat -> ~ In (nth i xs d) (remove_at i xs).
Proof.
  intro H. revert i. induction H as [|y xs Hy Hxs IH]; intros [|i] Hi;
    simpl in *; try lia.
  - exact Hy.
  - intros [Heq|Hin].
    + apply Hy. rewrite Heq. apply nth_In. lia.
    + apply (IH i); [lia | exact Hin].
Qed.

Lemma pick_distinct_cons (k p : nat) (pool rnd : list nat) :
  pick_distinct (S k) (p :: pool) rnd
  = nth (hd O rnd mod length (p :: pool)) (p :: pool) O
    :: pick_distinct k (remove_at (hd O rnd mod length (p :: pool)) (p :: pool))
         (tl rnd).
Proof. reflexivity. Qed.

Lemma pick_in_range (p : nat) (pool rnd : list nat) :
  (hd O rnd mod length (p :: pool) < length (p :: pool))%nat.
Proof. apply Nat.mod_upper_bound. discriminate. Qed.

Lemma pick_distinct_length (k : nat) (pool rnd : list nat) :
  (k <= length pool)%nat -> length (pick_distinct k pool rnd) = k.
Proof.
  revert pool rnd. induction k as [|k IH]; intros pool rnd Hk;
    [reflexivity|].
  destruct pool as [|p pool]; [simpl in Hk; lia|].
  rewrite pick_distinct_cons. pose proof (pick_in_range p pool rnd) as Hi.
  set (pl := p :: pool) in *. cbn [length]. f_equal. apply IH.
  rewrite remove_at_length by exact Hi. lia.
Qed.

Lemma pick_distinct_In (k : nat) (pool rnd : list nat) (i : nat) :
  In i (pick_distinct k pool rnd) -> In i pool.
Proof.
  revert pool rnd. induction k as [|k IH]; intros pool rnd H;
    [contradiction|].
  destruct pool as [|p pool]; [contradiction|].
  rewrite pick_distinct_cons in H.
  pose proof (pick_in_range p pool rnd) as Hi.
  set (pl := p :: pool) in *. destruct H as [H|H].
  - rewrite <- H. apply nth_In. exact Hi.
  - apply IH in H. exact (remove_at_In _ _ _ H).
Qed.

Lemma pick_distinct_NoDup (k : nat) (pool rnd : list nat) :
  NoDup pool -> NoDup (pick_distinct k pool rnd).
Proof.
  revert pool rnd. induction k as [|k IH]; intros pool rnd Hp;
    [constructor|].
  destruct pool as [|p pool]; [constructor|].
  rewrite pick_distinct_cons. pose proof (pick_in_range p pool rnd) as Hi.
  set (pl := p :: pool) in *. constructor.
  - intro Hin. apply pick_distinct_In in Hin.
    exact (remove_at_nth_fresh _ _ O Hp Hi Hin).
  - apply IH. apply remove_at_NoDup. exact Hp.
Qed.

(** *** Entries of a buffer built by [append] *)

Lemma well_formed_init (n : nat) :
  well_formed (ReplayBuffer_init (St := St) (Act := Act) n).
Proof. constructor. Qed.

Lemma Forall_skipn {X : Type} (P : X -> Prop) (n : nat) (xs : list X) :
  Forall P xs -> Forall P (skipn n xs).
Proof.
  revert xs. induction n as [|n IH]; intros xs H; simpl; [exact H|].
  destruct xs as [|x xs]; [constructor|]. inversion H; subst. apply IH.
  assumption.
Qed.

Lemma well_formed_append b (s : St) (x : Act) (r : R) (d : bool) (s' : St) :
  well_formed b -> well_formed (append b s x r d s').
Proof.
  unfold well_formed, append, pfrl_append, queue_append. intro H. simpl.
  destruct d; simpl; apply Forall_skipn; apply Forall_app; split;
    try exact H; repeat constructor.
Qed.

Lemma stored_lookup b (i : nat) :
  well_formed b -> (i < logical_size b)%nat ->
  exists e, nth i (memory (buf b)) [] = [e] /\
            nth_error (stored b) i = Some e.
Proof.
  unfold well_formed, logical_size, stored.
  generalize (memory (buf b)) as mem. intros mem H. revert i.
  induction H as [|w mem Hw Hmem IH]; intros i Hi; simpl in Hi; [lia|].
  destruct w as [|e [|e' w]]; simpl in Hw; try discriminate.
  destruct i as [|i]; simpl.
  - exists e. split; reflexivity.
  - apply IH. lia.
Qed.

Lemma collect_lookup b (idx : list nat) :
  well_formed b -> Forall (fun i => (i < logical_size b)%nat) idx ->
  exists es,
    Forall2 (fun i e => nth_error (stored b) i = Some e) idx es /\
    collect (map (fun i => nth i (memory (buf b)) []) idx) = batch_of es.
Proof.
  intros Hwf Hidx. unfold collect.
  induction Hidx as [|i idx Hi _ IH].
  - exists []. split; [constructor | reflexivity].
  - destruct IH as (es & Hes & Heq).
    destruct (stored_lookup b i Hwf Hi) as (e & Hnth & Hst).
    exists (e :: es). split; [constructor; assumption|].
    simpl. rewrite Hnth. simpl.
    injection Heq as H1 H2 H3 H4 H5.
    unfold batch_of. simpl. rewrite H1, H2, H3, H4, H5. reflexivity.
Qed.

Lemma Forall2_length_eq {X Y : Type} (P : X -> Y -> Prop) (xs : list X)
  (ys : list Y) :
  Forall2 P xs ys -> length ys = length xs.
Proof. induction 1; simpl; congruence. Qed.

(** C7, as the code has it.  On a buffer filled by [append], [sample]
    raises the assertion error of the underlying queue when fewer than
    [batch_size] transitions are stored; when at least [batch_size >= 1]
    are stored it returns [batch_size] of the stored transitions, taken
    at pairwise distinct positions (a draw without replacement), as five
    arrays aligned by position, the done flags as 0.0 or 1.0. *)
Theorem sample_contract b (batch_size : Z) (rnd : list nat) :
  well_formed b ->
  ((Z.of_nat (logical_size b) < batch_size)%Z ->
   sample b batch_size rnd = Raise AssertionError) /\
  ((1 <= batch_size <= Z.of_nat (logical_size b))%Z ->
   exists (idx : list nat) (es : list (experience St Act)),
     length idx = Z.to_nat batch_size /\
     length es = Z.to_nat batch_size /\
     NoDup idx /\
     Forall2 (fun i e => nth_error (stored b) i = Some e) idx es /\
     sample b batch_size rnd = Ok (batch_of es) /\
     dones (batch_of es)
       = map (fun e => if is_state_terminal e then 1 else 0) es).
Proof.
  intro Hwf. unfold sample, pfrl_sample, logical_size. split.
  - intro Hlt. rewrite Z.geb_leb.
    destruct (Z.leb_spec batch_size (Z.of_nat (length (memory (buf b)))));
      [lia | reflexivity].
  - intros [Hk1 Hk2]. rewrite Z.geb_leb.
    destruct (Z.leb_spec batch_size (Z.of_nat (length (memory (buf b)))))
      as [_|Hbad]; [|lia].
    unfold sample_n_k.
    destruct (Z.leb_spec 0 batch_size) as [_|Hbad]; [|lia].
    destruct (Z.leb_spec batch_size (Z.of_nat (length (memory (buf b)))))
      as [_|Hbad]; [|lia].
    cbn [andb bind].
    set (n := length (memory (buf b))) in *.
    set (idx := pick_distinct (Z.to_nat batch_size) (seq 0 n) rnd).
    assert (Hlen : length idx = Z.to_nat batch_size).
    { apply pick_distinct_length. rewrite length_seq. lia. }
    assert (Hnd : NoDup idx) by (apply pick_distinct_NoDup, seq_NoDup).
    assert (Hrange : Forall (fun i => (i < logical_size b)%nat) idx).
    { apply Forall_forall. intros i Hi. apply pick_distinct_In in Hi.
      apply in_seq in Hi. unfold logical_size. fold n. lia. }
    destruct (collect_lookup b idx Hwf Hrange) as (es & Hes & Hcol).
    exists idx, es. split; [exact Hlen|].
    split; [rewrite (Forall2_length_eq _ _ _ Hes); exact Hlen|].
    split; [exact Hnd|]. split; [exact Hes|]. split; [|reflexivity].
    destruct idx as [|i idx'] eqn:Hidx; [simpl in Hlen; lia|].
    rewrite <- Hcol. reflexivity.
Qed.

End Facts.

End BufferFacts.

(** ** Properties of the Adam step on a scalar *)

Module AdamFacts.
Import Adam.

Lemma beta1_range : 0 < beta1 < 1.
Proof. unfold beta1. lra. Qed.

Lemma beta2_range : 0 < beta2 < 1.
Proof. unfold beta2. lra. Qed.

Lemma eps_pos : 0 < eps.
Proof. unfold eps. lra. Qed.

Lemma bias_correction_pos (b : R) (n : nat) :
  0 < b < 1 -> 0 < 1 - b ^ S n.
Proof.
  intros [Hb0 Hb1].
  assert (H : 0 < b ^ n <= 1).
  { induction n as [|n IH]; simpl; [lra|]. destruct IH as [IH0 IH1].
    split; [apply Rmult_lt_0_compat; lra|]. nra. }
  simpl. nra.
Qed.

Lemma denom_pos (v c : R) : 0 < c -> 0 < sqrt v / sqrt c + eps.
Proof.
  intro Hc. pose proof eps_pos. pose proof (sqrt_pos v) as Hv.
  pose proof (sqrt_lt_R0 c Hc) as Hsc.
  assert (0 <= sqrt v / sqrt c).
  { unfold Rdiv. apply Rmult_le_pos; [exact Hv|].
    left. apply Rinv_0_lt_compat. exact Hsc. }
  lra.
Qed.

(** A step on a non-positive gradient, from moment estimates that record
    non-positive gradients only, does not lower the parameter. *)
Lemma step_nonpositive_gradient (st : state) (p g : R) :
  0 <= lr st -> exp_avg st <= 0 -> 0 <= exp_avg_sq st -> g <= 0 ->
  let st' := fst (step st p g) in
  lr st' = lr st /\ exp_avg st' <= 0 /\ 0 <= exp_avg_sq st' /\
  p <= snd (step st p g).
Proof.
  intros Hlr Hm Hv Hg. unfold step. cbv zeta. cbn [fst snd].
  pose proof beta1_range as Hb1. pose proof beta2_range as Hb2.
  set (m := beta1 * exp_avg st + (1 - beta1) * g).
  set (v := beta2 * exp_avg_sq st + (1 - beta2) * (g * g)).
  assert (Hm' : m <= 0) by (unfold m; nra).
  assert (Hv' : 0 <= v) by (unfold v; nra).
  cbn [lr exp_avg exp_avg_sq].
  split; [reflexivity|]. split; [exact Hm'|]. split; [exact Hv'|].
  pose proof (bias_correction_pos beta1 (step_count st) Hb1) as Hc1.
  pose proof (bias_correction_pos beta2 (step_count st) Hb2) as Hc2.
  pose proof (denom_pos v _ Hc2) as Hd.
  set (d := sqrt v / sqrt (1 - beta2 ^ S (step_count st)) + eps) in *.
  assert (Hq : m / d <= 0).
  { pose proof (Rinv_0_lt_compat d Hd). unfold Rdiv. nra. }
  assert (Hs : 0 <= lr st / (1 - beta1 ^ S (step_count st))).
  { unfold Rdiv. apply Rmult_le_pos; [exact Hlr|].
    left. apply Rinv_0_lt_compat. exact Hc1. }
  nra.
Qed.

(** Under the constant gradient 1 the moment estimates are their bias
    corrections and every step lowers the parameter by
    [lr / (1 + eps)]. *)
Lemma step_unit_gradient (l p : R) (n : nat) :
  step (State l n (1 - beta1 ^ n) (1 - beta2 ^ n)) p 1
  = (State l (S n) (1 - beta1 ^ S n) (1 - beta2 ^ S n), p - l / (1 + eps)).
Proof.
  unfold step. cbv zeta. cbn [lr step_count exp_avg exp_avg_sq].
  pose proof (bias_correction_pos beta1 n beta1_range) as Hc1.
  pose proof (bias_correction_pos beta2 n beta2_range) as Hc2.
  pose proof eps_pos as He.
  replace (beta1 * (1 - beta1 ^ n) + (1 - beta1) * 1)
    with (1 - beta1 ^ S n) by (simpl; ring).
  replace (beta2 * (1 - beta2 ^ n) + (1 - beta2) * (1 * 1))
    with (1 - beta2 ^ S n) by (simpl; ring).
  assert (Hs : sqrt (1 - beta2 ^ S n) / sqrt (1 - beta2 ^ S n) = 1).
  { pose proof (sqrt_lt_R0 _ Hc2). field. lra. }
  rewrite Hs. f_equal. field. split; lra.
Qed.

Lemma step_unit_gradient_first (l p : R) :
  step (init l) p 1
  = (State l 1 (1 - beta1 ^ 1) (1 - beta2 ^ 1), p - l / (1 + eps)).
Proof.
  rewrite <- (step_unit_gradient l p 0). unfold init. do 2 f_equal;
    simpl; ring.
Qed.

End AdamFacts.

(** ** Properties of the SAC update equations *)

Module AlgoFacts.
Import Algo TensorFacts.

Section Facts.
Context {St Act : Type} {E : Env St Act} {N : Networks St Act}.
Implicit Types a : SAC St Act.

Lemma zipWith_sq_diff (qs ts : list R) :
  map (fun x => x ^ 2) (zipWith Rminus qs ts)
  = zipWith (fun q t => (q - t) ^ 2) qs ts.
Proof.
  revert ts. induction qs as [|q qs IH]; intros [|t ts]; simpl;
    try reflexivity.
  rewrite IH. reflexivity.
Qed.

Lemma target_qs_detached a noise (rews dones : list R) (n_states : list St) :
  requires (target_qs a noise (from_data rews) (from_data dones)
              (from_data n_states)) = detached.
Proof. reflexivity. Qed.

Lemma target_qs_row a noise (rews dones : list R) (n_states : list St)
  (i : nat) (r d : R) (s' : St) :
  nth_error rews i = Some r ->
  nth_error dones i = Some d ->
  nth_error n_states i = Some s' ->
  nth_error
    (data (target_qs a noise (from_data rews) (from_data dones)
             (from_data n_states))) i
  = Some (spec_target_q a (noise i) r d s').
Proof.
  intros Hr Hd Hs. unfold target_qs, actor_call, critic_call, pointwise,
    broadcast, tmap, from_data. simpl.
  repeat (rewrite ?nth_error_zipWith, ?nth_error_map, ?nth_error_indexed).
  rewrite Hr, Hd, Hs. simpl. f_equal. unfold spec_target_q. simpl. ring.
Qed.

(** C1. For every sampled batch, row [i] of the critic target is
    [reward_scale * r + gamma * (1 - done) * (min(target_q1(s', a'),
    target_q2(s', a')) - alpha * log_pi(a'|s'))] with [a'] and its
    log-probability drawn from the current policy at [s']; the target
    depends on no trainable leaf (it carries no gradient); and the two
    critic losses are the mean squared errors of [q1(s,a)] and [q2(s,a)]
    against it, with gradient into the critic parameters only. *)
Theorem critic_target_and_losses a noise (states n_states : list St)
  (actions : list Act) (rews dones : list R) :
  let tq := target_qs a noise (from_data rews) (from_data dones)
              (from_data n_states) in
  let now_q := zipWith (critic_forward (critic a)) states actions in
  let losses := critic_loss_func a noise (from_data states)
                  (from_data actions) (from_data rews) (from_data dones)
                  (from_data n_states) in
  (forall i r d s',
      nth_error rews i = Some r ->
      nth_error dones i = Some d ->
      nth_error n_states i = Some s' ->
      nth_error (data tq) i = Some (spec_target_q a (noise i) r d s')) /\
  requires tq = detached /\
  value (fst losses)
    = mean (zipWith (fun q t => (q - t) ^ 2) (map fst now_q) (data tq)) /\
  value (snd losses)
    = mean (zipWith (fun q t => (q - t) ^ 2) (map snd now_q) (data tq)) /\
  srequires (fst losses) = critic_leaf /\
  srequires (snd losses) = critic_leaf.
Proof.
  intros tq now_q losses. split; [|split; [|repeat split]].
  - intros i r d s'. apply target_qs_row.
  - apply target_qs_detached.
  - unfold losses, critic_loss_func, critic_call, tmean, tmap, pointwise.
    simpl. rewrite zipWith_sq_diff. reflexivity.
  - unfold losses, critic_loss_func, critic_call, tmean, tmap, pointwise.
    simpl. rewrite zipWith_sq_diff. reflexivity.
Qed.

Lemma critic_on_sampled_rows (theta : params) (F : nat * St -> Act * R)
  (ps : list (nat * St)) :
  zipWith (critic_forward theta) (map snd ps) (map fst (map F ps))
  = map (fun p => critic_forward theta (snd p) (fst (F p))) ps.
Proof.
  induction ps as [|p ps IH]; simpl; [reflexivity|]. rewrite IH.
  reflexivity.
Qed.

Lemma critic_on_sampled_batch (theta : params) (F : nat * St -> Act * R)
  (states : list St) :
  zipWith (critic_forward theta) states (map fst (map F (indexed states)))
  = map (fun p => critic_forward theta (snd p) (fst (F p))) (indexed states).
Proof.
  rewrite <- (critic_on_sampled_rows theta F (indexed states)).
  rewrite map_snd_indexed. reflexivity.
Qed.

Lemma actor_loss_data a noise (states : list St) :
  value (fst (actor_loss_func a noise (from_data states)))
  = mean (map (fun p => spec_actor_loss_row a (noise (fst p)) (snd p))
            (indexed states)).
Proof.
  unfold actor_loss_func, actor_call, critic_call, tmean, pointwise,
    broadcast, from_data. simpl. f_equal.
  set (F := fun p : nat * St => actor_sample (actor a) (noise (fst p)) (snd p)).
  rewrite !(critic_on_sampled_batch (critic a) F).
  rewrite !map_map. rewrite zipWith_map. rewrite zipWith_map.
  reflexivity.
Qed.

Lemma entropy_adjust_frame a (log_pis : tensor R) :
  let a' := entropy_adjust_func a log_pis in
  actor a' = actor a /\ optim_actor a' = optim_actor a /\
  critic a' = critic a /\ optim_critic a' = optim_critic a /\
  critic_target a' = critic_target a /\ buffer a' = buffer a /\
  min_alpha a' = min_alpha a.
Proof.
  unfold entropy_adjust_func.
  destruct (Adam.step (optim_alpha a) (alpha a) (entropy_grad a log_pis))
    as [o x].
  simpl. repeat split; reflexivity.
Qed.

Lemma actor_optimizer_frame a noise (states : tensor St) :
  let a' := actor_optimizer_step a noise states in
  critic a' = critic a /\ optim_critic a' = optim_critic a /\
  critic_target a' = critic_target a /\ alpha a' = alpha a /\
  optim_alpha a' = optim_alpha a /\ buffer a' = buffer a /\
  min_alpha a' = min_alpha a.
Proof.
  unfold actor_optimizer_step.
  destruct (actor_backward_step (optim_actor a) (actor a) (critic a)
              (alpha a) (data states) noise) as [o p].
  simpl. repeat split; reflexivity.
Qed.

Lemma update_actor_unfold a noise (states : tensor St) :
  fst (update_actor a noise states)
  = entropy_adjust_func (actor_optimizer_step a noise states)
      (snd (actor_loss_func a noise states)).
Proof.
  unfold update_actor.
  destruct (actor_loss_func a noise states) as [l lp]. reflexivity.
Qed.

(** C2. For every batch of states the actor loss is the batch mean of
    [alpha * log_pi(a|s) - min(q1(s,a), q2(s,a))], with [a] and
    [log_pi(a|s)] sampled from the policy at the batch states and
    carrying gradient into the actor; the step of the actor optimizer
    that follows changes the actor parameters and leaves the critic, the
    target critic, [alpha] and the buffer as they were, and so does the
    whole of [update_actor] for the critic and the target critic. *)
Theorem actor_loss_and_actor_step a noise (states : list St) :
  let res := actor_loss_func a noise (from_data states) in
  let a' := actor_optimizer_step a noise (from_data states) in
  value (fst res)
    = mean (map (fun p => spec_actor_loss_row a (noise (fst p)) (snd p))
              (indexed states)) /\
  data (snd res)
    = map (fun p => snd (actor_sample (actor a) (noise (fst p)) (snd p)))
        (indexed states) /\
  requires (snd res) = actor_leaf /\
  srequires (fst res) = Leaves true true true /\
  (optim_actor a', actor a')
    = actor_backward_step (optim_actor a) (actor a) (critic a) (alpha a)
        states noise /\
  critic a' = critic a /\
  optim_critic a' = optim_critic a /\
  critic_target a' = critic_target a /\
  alpha a' = alpha a /\
  buffer a' = buffer a /\
  critic (fst (update_actor a noise (from_data states))) = critic a /\
  critic_target (fst (update_actor a noise (from_data states)))
    = critic_target a.
Proof.
  intros res a'. split; [apply actor_loss_data|].
  split.
  { unfold res, actor_loss_func, actor_call, from_data. simpl.
    rewrite map_map. reflexivity. }
  split; [reflexivity|]. split; [reflexivity|].
  destruct (actor_optimizer_frame a noise (from_data states))
    as (Hc & Hoc & Ht & Hal & _ & Hb & _).
  split.
  { unfold a', actor_optimizer_step. simpl.
    destruct (actor_backward_step (optim_actor a) (actor a) (critic a)
                (alpha a) states noise) as [o p].
    reflexivity. }
  split; [exact Hc|]. split; [exact Hoc|]. split; [exact Ht|].
  split; [exact Hal|]. split; [exact Hb|].
  rewrite update_actor_unfold.
  destruct (entropy_adjust_frame
              (actor_optimizer_step a noise (from_data states))
              (snd (actor_loss_func a noise (from_data states))))
    as (_ & _ & Hc' & _ & Ht' & _).
  split; [rewrite Hc'; exact Hc | rewrite Ht'; exact Ht].
Qed.

Lemma mean_scale (x : R) (cs : list R) :
  mean (map (Rmult x) cs) = x * mean cs.
Proof.
  unfold mean. rewrite length_map.
  assert (H : rsum (map (Rmult x) cs) = x * rsum cs).
  { induction cs as [|c cs IH]; simpl; [ring|]. rewrite IH. ring. }
  rewrite H. unfold Rdiv. ring.
Qed.

Lemma entropy_loss_value a (log_pis : tensor R) :
  value (entropy_loss a log_pis)
  = - mean (map (fun lp => alpha a * (lp + min_alpha a)) (data log_pis)).
Proof.
  unfold entropy_loss, sneg, tmean, broadcast, tmap. simpl.
  rewrite map_map. reflexivity.
Qed.

(** The gradient handed to the optimizer of [alpha] is the derivative of
    the entropy loss in [alpha]. *)
Lemma entropy_grad_is_derivative a (log_pis : tensor R) :
  derivable_pt_lim
    (fun x => value (entropy_loss (set_alpha a (optim_alpha a) x) log_pis))
    (alpha a) (entropy_grad a log_pis).
Proof.
  intros eps Heps. exists (mkposreal 1 Rlt_0_1). intros h Hh _.
  unfold entropy_loss, entropy_grad, sneg, tmean, broadcast, tmap. simpl.
  rewrite !mean_scale.
  match goal with
  | |- Rabs ?e < _ => replace e with 0 by (field; exact Hh)
  end.
  rewrite Rabs_R0. exact Heps.
Qed.

(** C3. [alpha] starts at three times [min_alpha], above [min_alpha] when
    that is positive.  The entropy loss is
    [-mean(alpha * (log_pi + min_alpha))]; whatever the provenance of the
    log-probabilities, it depends on the leaf [alpha] alone, so that no
    gradient reaches the policy, and the gradient given to the optimizer
    is its derivative in [alpha].  [update_actor] feeds it the
    log-probabilities of its own actor loss, and the optimizer step that
    follows changes [alpha] and nothing else of the networks or the
    buffer. *)
Theorem entropy_coefficient_update a noise (log_pis : tensor R)
  (sts : list St) (actor0 critic0 target0 : params) (bs ss : Z)
  (g la lc lal t m rs : R) (n : nat) :
  let a0 := SAC_init actor0 critic0 target0 bs g la lc lal n ss t m rs in
  let a' := entropy_adjust_func a log_pis in
  alpha a0 = 3 * m /\
  min_alpha a0 = m /\
  (0 < m -> min_alpha a0 < alpha a0) /\
  value (entropy_loss a log_pis)
    = - mean (map (fun lp => alpha a * (lp + min_alpha a)) (data log_pis)) /\
  srequires (entropy_loss a log_pis) = alpha_leaf /\
  derivable_pt_lim
    (fun x => value (entropy_loss (set_alpha a (optim_alpha a) x) log_pis))
    (alpha a) (entropy_grad a log_pis) /\
  fst (update_actor a noise (from_data sts))
    = entropy_adjust_func (actor_optimizer_step a noise (from_data sts))
        (snd (actor_loss_func a noise (from_data sts))) /\
  (optim_alpha a', alpha a')
    = Adam.step (optim_alpha a) (alpha a) (entropy_grad a log_pis) /\
  actor a' = actor a /\
  optim_actor a' = optim_actor a /\
  critic a' = critic a /\
  optim_critic a' = optim_critic a /\
  critic_target a' = critic_target a /\
  buffer a' = buffer a.
Proof.
  intros a0 a'.
  split; [unfold a0, SAC_init; simpl; ring|].
  split; [reflexivity|].
  split; [intro Hm; unfold a0, SAC_init; simpl; lra|].
  split; [apply entropy_loss_value|].
  split; [reflexivity|].
  split; [apply entropy_grad_is_derivative|].
  split; [apply update_actor_unfold|].
  destruct (entropy_adjust_frame a log_pis)
    as (Ha & Hoa & Hc & Hoc & Ht & Hb & _).
  split.
  { unfold a', entropy_adjust_func.
    destruct (Adam.step (optim_alpha a) (alpha a) (entropy_grad a log_pis))
      as [o x].
    reflexivity. }
  repeat split; assumption.
Qed.

(** *** What each operation leaves alone *)

Lemma step_frame a (env : env_state) (state : St) (t steps : Z)
  (noise : gauss) :
  let a' := snd (fst (step a env state t steps noise)) in
  actor a' = actor a /\ critic a' = critic a /\
  critic_target a' = critic_target a /\ alpha a' = alpha a /\
  optim_alpha a' = optim_alpha a /\ min_alpha a' = min_alpha a.
Proof.
  unfold step. destruct (choose_action a env state steps noise) as [act e1].
  destruct (env_step e1 act false) as [[[n_state rew] done] e2].
  destruct done; [destruct (env_reset e2) as [s0 e3]|]; simpl;
    repeat split; reflexivity.
Qed.

Lemma update_critic_frame a noise (b : Buffer.batch St Act) :
  let a' := fst (update_critic a noise b) in
  actor a' = actor a /\ optim_actor a' = optim_actor a /\
  critic_target a' = critic_target a /\ alpha a' = alpha a /\
  optim_alpha a' = optim_alpha a /\ min_alpha a' = min_alpha a /\
  buffer a' = buffer a.
Proof.
  unfold update_critic.
  destruct (critic_loss_func a noise _ _ _ _ _) as [l1 l2].
  destruct (critic_backward_step _ _ _ _ _) as [o p].
  simpl. repeat split; reflexivity.
Qed.

Lemma log_pis_of_actor a a' noise (states : tensor St) :
  actor a' = actor a ->
  snd (actor_loss_func a' noise states) = snd (actor_loss_func a noise states).
Proof.
  intro H. unfold actor_loss_func, actor_call, critic_call. simpl.
  rewrite H. reflexivity.
Qed.

Lemma entropy_adjust_alpha a (log_pis : tensor R) :
  (optim_alpha (entropy_adjust_func a log_pis),
   alpha (entropy_adjust_func a log_pis))
  = Adam.step (optim_alpha a) (alpha a) (entropy_grad a log_pis).
Proof.
  unfold entropy_adjust_func.
  destruct (Adam.step (optim_alpha a) (alpha a) (entropy_grad a log_pis))
    as [o x].
  reflexivity.
Qed.

(** The entropy step of an [update] is an Adam step on the [alpha] the
    update started from. *)
Lemma update_alpha a a' (rnd : list nat) (noise1 noise2 : nat -> gauss)
  (losses : R * R * R) (log_pis : tensor R) :
  update a rnd noise1 noise2 = Ok (a', losses) ->
  update_log_pis a rnd noise2 = Ok log_pis ->
  (optim_alpha a', alpha a')
    = Adam.step (optim_alpha a) (alpha a) (entropy_grad a log_pis) /\
  min_alpha a' = min_alpha a.
Proof.
  unfold update, update_log_pis. cbn [buffer batch_size set_learning_steps].
  destruct (Buffer.sample (buffer a) (batch_size a) rnd) as [b|e];
    simpl; [|discriminate].
  set (a0 := set_learning_steps a (learning_steps a + 1)%Z).
  intros Hu Hl. injection Hl as <-.
  destruct (update_critic_frame a0 noise1 b)
    as (Hact & _ & _ & Hal & Hopt & Hmin & _).
  destruct (update_critic a0 noise1 b) as [a1 [l1 l2]]. simpl in *.
  pose proof (update_actor_unfold a1 noise2 (from_data (Buffer.states b)))
    as Hua.
  destruct (actor_optimizer_frame a1 noise2 (from_data (Buffer.states b)))
    as (_ & _ & _ & Hal2 & Hopt2 & _ & Hmin2).
  destruct (update_actor a1 noise2 (from_data (Buffer.states b)))
    as [a2 la]. simpl in Hua.
  injection Hu as <- _. cbn [update_target set_critic_target alpha
    optim_alpha min_alpha].
  subst a2. rewrite Hact.
  set (x := actor_optimizer_step a1 noise2 (from_data (Buffer.states b)))
    in *.
  match goal with
  | |- context [entropy_adjust_func x ?l] => set (lp := l)
  end.
  rewrite entropy_adjust_alpha.
  destruct (entropy_adjust_frame x lp) as (_ & _ & _ & _ & _ & _ & Hm3).
  split.
  - unfold entropy_grad. rewrite Hal2, Hopt2, Hmin2, Hal, Hopt, Hmin.
    reflexivity.
  - rewrite Hm3, Hmin2, Hmin. reflexivity.
Qed.

(** *** The entropy coefficient along a run *)

Lemma alpha_inv_init (actor0 critic0 target0 : params) (bs ss : Z)
  (g la lc lal t m rs : R) (n : nat) :
  0 <= m -> 0 <= lal ->
  alpha_inv (SAC_init actor0 critic0 target0 bs g la lc lal n ss t m rs).
Proof.
  intros Hm Hl. unfold alpha_inv, SAC_init, Adam.init. simpl.
  repeat split; lra.
Qed.

Lemma alpha_inv_adam a a' (g : R) :
  alpha_inv a -> g <= 0 ->
  (optim_alpha a', alpha a') = Adam.step (optim_alpha a) (alpha a) g ->
  alpha_inv a'.
Proof.
  intros (Ha & Hlr & Hm & Hv) Hg Heq.
  destruct (AdamFacts.step_nonpositive_gradient (optim_alpha a) (alpha a) g
              Hlr Hm Hv Hg) as (Hlr' & Hm' & Hv' & Hp).
  rewrite <- Heq in Hlr', Hm', Hv', Hp. simpl in Hlr', Hm', Hv', Hp.
  unfold alpha_inv. rewrite Hlr'. repeat split; try assumption. lra.
Qed.

(** C4, as the code has it.  [alpha] is not negative after the
    initialisation with a non-negative [min_alpha], and not negative in
    any state reached by [step] and [update] calls whose entropy steps
    all had a non-positive gradient, that is a batch with
    [mean(log_pi) + min_alpha >= 0]. *)
Theorem alpha_nonnegative_on_nonpositive_gradients
  (actor0 critic0 target0 : params) (bs ss : Z) (g la lc lal t m rs : R)
  (n : nat) a :
  0 <= m -> 0 <= lal ->
  run (fun x log_pis => entropy_grad x log_pis <= 0)
    (SAC_init actor0 critic0 target0 bs g la lc lal n ss t m rs) a ->
  0 <= alpha a.
Proof.
  intros Hm Hl Hrun.
  enough (H : alpha_inv a) by (destruct H as [H _]; exact H).
  induction Hrun as [|a env state t0 steps noise Hrun IH
                     |a a' rnd n1 n2 losses lp Hrun IH Hup Hlp Hg].
  - apply alpha_inv_init; assumption.
  - destruct (step_frame a env state t0 steps noise)
      as (_ & _ & _ & Hal & Hopt & _).
    unfold alpha_inv in *. rewrite Hal, Hopt. exact IH.
  - destruct (update_alpha a a' rnd n1 n2 losses lp Hup Hlp) as [Hstep _].
    exact (alpha_inv_adam a a' _ IH Hg Hstep).
Qed.

Lemma update_succeeds a (rnd : list nat) (noise1 noise2 : nat -> gauss)
  (b : Buffer.batch St Act) :
  Buffer.sample (buffer a) (batch_size a) rnd = Ok b ->
  exists a' losses,
    update a rnd noise1 noise2 = Ok (a', losses) /\
    update_log_pis a rnd noise2
    = Ok (snd (actor_loss_func a noise2 (from_data (Buffer.states b)))).
Proof.
  unfold update, update_log_pis. cbn [buffer batch_size set_learning_steps].
  intros ->. cbn [bind].
  destruct (update_critic _ noise1 b) as [a1 [l1 l2]].
  destruct (update_actor a1 noise2 _) as [a2 la].
  eexists. eexists. split; reflexivity.
Qed.

(** Entropy steps on batches of gradient 1: every step lowers [alpha]
    by [lr / (1 + eps)]. *)
Lemma entropy_steps_unit_gradient a (log_pis : tensor R) (l : R)
  (k n : nat) :
  entropy_grad a log_pis = 1 ->
  optim_alpha a
  = Adam.State l k (1 - Adam.beta1 ^ k) (1 - Adam.beta2 ^ k) ->
  alpha (Nat.iter n (fun x => entropy_adjust_func x log_pis) a)
  = alpha a - INR n * (l / (1 + Adam.eps)).
Proof.
  intros Hg Hopt.
  enough (H : let x := Nat.iter n (fun x => entropy_adjust_func x log_pis) a in
              alpha x = alpha a - INR n * (l / (1 + Adam.eps)) /\
              min_alpha x = min_alpha a /\
              optim_alpha x
              = Adam.State l (n + k) (1 - Adam.beta1 ^ (n + k))
                  (1 - Adam.beta2 ^ (n + k)))
    by (destruct H as [H _]; exact H).
  induction n as [|n IH].
  - simpl. repeat split; [ring | exact Hopt].
  - destruct IH as (Hal & Hmin & Ho).
    change (Nat.iter (S n) (fun x => entropy_adjust_func x log_pis) a)
      with (entropy_adjust_func
              (Nat.iter n (fun x => entropy_adjust_func x log_pis) a) log_pis).
    set (x := Nat.iter n (fun x => entropy_adjust_func x log_pis) a) in *.
    pose proof (entropy_adjust_alpha x log_pis) as Hstep.
    destruct (entropy_adjust_frame x log_pis) as (_ & _ & _ & _ & _ & _ & Hm').
    assert (Hg' : entropy_grad x log_pis = 1)
      by (unfold entropy_grad in *; rewrite Hmin; exact Hg).
    rewrite Hg', Ho, AdamFacts.step_unit_gradient in Hstep.
    pose proof (f_equal fst Hstep) as Ho'.
    pose proof (f_equal snd Hstep) as Hal'. cbn [fst snd] in Ho', Hal'.
    cbv zeta. split; [|split].
    + rewrite Hal', Hal, S_INR. ring.
    + rewrite Hm'. exact Hmin.
    + rewrite Ho'. reflexivity.
Qed.

(** *** Target critic *)

Lemma zipWith_snd_same_length (xs ys : list R) :
  length xs = length ys -> zipWith (fun _ y : R => y) xs ys = ys.
Proof.
  revert ys. induction xs as [|x xs IH]; intros [|y ys] H; simpl in *;
    try discriminate; try reflexivity.
  rewrite IH by lia. reflexivity.
Qed.

Lemma load_state_dict_copy (dst src : params) :
  same_shape dst src -> load_state_dict dst src = src.
Proof.
  unfold load_state_dict. induction 1 as [|x y p q Hxy _ IH]; simpl;
    [reflexivity|].
  rewrite IH, zipWith_snd_same_length by exact Hxy. reflexivity.
Qed.

Lemma soft_update_one (target trained : list R) :
  length target = length trained -> soft_update 1 target trained = trained.
Proof.
  unfold soft_update. revert trained.
  induction target as [|t target IH]; intros [|x trained] H; simpl in *;
    try discriminate; try reflexivity.
  rewrite IH by lia. f_equal. ring.
Qed.

Lemma soft_update_zero (target trained : list R) :
  length target = length trained -> soft_update 0 target trained = target.
Proof.
  unfold soft_update. revert trained.
  induction target as [|t target IH]; intros [|x trained] H; simpl in *;
    try discriminate; try reflexivity.
  rewrite IH by lia. f_equal. ring.
Qed.

Lemma soft_update_polyak (tau : R) (target trained : list R) :
  soft_update tau target trained
  = zipWith (fun t x => (1 - tau) * t + tau * x) target trained.
Proof.
  unfold soft_update. revert trained.
  induction target as [|t target IH]; intros [|x trained]; simpl;
    try reflexivity.
  rewrite IH. f_equal. ring.
Qed.

Lemma update_target_polyak a :
  critic_target (update_target a)
  = zipWith (zipWith (fun t x => (1 - tau a) * t + tau a * x))
      (critic_target a) (critic a).
Proof.
  unfold update_target. simpl. generalize (critic a).
  induction (critic_target a) as [|t ts IH]; intros [|x xs]; simpl;
    try reflexivity.
  rewrite IH, soft_update_polyak. reflexivity.
Qed.

Lemma update_target_one a :
  same_shape (critic_target a) (critic a) -> tau a = 1 ->
  critic_target (update_target a) = critic a.
Proof.
  intros Hs Ht. unfold update_target. simpl. rewrite Ht.
  induction Hs as [|x y p q Hxy _ IH]; simpl; [reflexivity|].
  rewrite IH, soft_update_one by exact Hxy. reflexivity.
Qed.

Lemma update_target_zero a :
  same_shape (critic_target a) (critic a) -> tau a = 0 ->
  critic_target (update_target a) = critic_target a.
Proof.
  intros Hs Ht. unfold update_target. simpl. rewrite Ht.
  induction Hs as [|x y p q Hxy _ IH]; simpl; [reflexivity|].
  rewrite IH, soft_update_zero by exact Hxy. reflexivity.
Qed.

(** C5. The target critic starts as a copy of the critic; the calls that
    take gradient steps ([update_critic], [update_actor]) and [step] do
    not touch it; [update_target] replaces every target parameter by
    [(1 - tau) * target + tau * critic] and leaves the critic alone.
    With [tau = 1] the target becomes the critic, with [tau = 0] it is
    unchanged. *)
Theorem target_critic_tracking (actor0 critic0 target0 : params)
  (bs ss : Z) (g la lc lal t m rs : R) (n : nat) a
  (noise : nat -> gauss) (b : Buffer.batch St Act) (states : tensor St)
  (env : env_state) (state : St) (t0 steps : Z) (eps : gauss) :
  (same_shape target0 critic0 ->
   critic_target (SAC_init actor0 critic0 target0 bs g la lc lal n ss t m rs)
   = critic (SAC_init actor0 critic0 target0 bs g la lc lal n ss t m rs)) /\
  critic_target (fst (update_critic a noise b)) = critic_target a /\
  critic_target (fst (update_actor a noise states)) = critic_target a /\
  critic_target (snd (fst (step a env state t0 steps eps)))
    = critic_target a /\
  critic_target (update_target a)
    = zipWith (zipWith (fun t x => (1 - tau a) * t + tau a * x))
        (critic_target a) (critic a) /\
  critic (update_target a) = critic a /\
  (same_shape (critic_target a) (critic a) -> tau a = 1 ->
   critic_target (update_target a) = critic a) /\
  (same_shape (critic_target a) (critic a) -> tau a = 0 ->
   critic_target (update_target a) = critic_target a).
Proof.
  split.
  { intro Hs. unfold SAC_init. simpl. apply load_state_dict_copy, Hs. }
  split.
  { destruct (update_critic_frame a noise b) as (_ & _ & H & _). exact H. }
  split.
  { rewrite update_actor_unfold.
    destruct (entropy_adjust_frame (actor_optimizer_step a noise states)
                (snd (actor_loss_func a noise states)))
      as (_ & _ & _ & _ & H & _).
    destruct (actor_optimizer_frame a noise states) as (_ & _ & H' & _).
    rewrite H. exact H'. }
  split.
  { destruct (step_frame a env state t0 steps eps) as (_ & _ & H & _).
    exact H. }
  split; [apply update_target_polyak|].
  split; [reflexivity|].
  split; [apply update_target_one | apply update_target_zero].
Qed.

(** *** Warm-up and episode ends *)


(** C10. [step] appends the transition with the state returned by the
    environment, also when that state is terminal.  When the environment
    reported [done], [step] resets the environment itself and returns
    the observation of the reset and the episode counter 0; otherwise it
    returns the state of the environment and [t + 1]. *)
Theorem step_resets_on_done a (env : env_state) (state : St) (t steps : Z)
  (noise : gauss) :
  let action := fst (choose_action a env state steps noise) in
  let env1 := snd (choose_action a env state steps noise) in
  let n_state := fst (fst (fst (env_step env1 action false))) in
  let rew := snd (fst (fst (env_step env1 action false))) in
  let done := snd (fst (env_step env1 action false)) in
  let env2 := snd (env_step env1 action false) in
  let res := step a env state t steps noise in
  buffer (snd (fst res))
    = Buffer.append (buffer a) state action rew done n_state /\
  fst (fst res)
    = (if done then (fst (env_reset env2), 0%Z) else (n_state, (t + 1)%Z)) /\
  snd res = (if done then snd (env_reset env2) else env2) /\
  total_rew (snd (fst res)) = (if done then 0 else total_rew a + rew).
Proof.
  unfold step. destruct (choose_action a env state steps noise) as [act e1].
  simpl. destruct (env_step e1 act false) as [[[n_state rew] done] e2].
  simpl. destruct done; [destruct (env_reset e2) as [s0 e3]|]; simpl;
    repeat split; reflexivity.
Qed.

End Facts.

End AlgoFacts.

(** ** Properties of the trainer *)

Module TrainFacts.
Import Algo Train.

Section Facts.
Context {St Act : Type} {E : Env St Act} {N : Networks St Act}.

(** The trainer evaluates on the very object it trains on. *)
Lemma Trainer_init_shares_environment (h : heap) (r : ref)
  (a : SAC St Act) (seed ns ei ne : Z) :
  env_test (fst (Trainer_init h r a seed ns ei ne))
  = env (fst (Trainer_init h r a seed ns ei ne)).
Proof. reflexivity. Qed.

(** Evaluation appends nothing to the buffer and changes no parameter:
    the algorithm is the same object state afterwards. *)
Lemma evaluate_frame (fuel : nat) (tr tr' : Trainer St Act) (h h' : heap)
  (steps : Z) (r : R) :
  evaluate fuel tr h steps = Some (r, tr', h') ->
  algo tr' = algo tr /\ env tr' = env tr /\ env_test tr' = env_test tr /\
  exists e, h' = store h (env_test tr) e.
Proof.
  unfold evaluate.
  destruct (eval_episodes fuel (Z.to_nat (num_eval_episodes tr)) (algo tr)
              (h (env_test tr)) [] 0) as [[[rets ave] e]|]; [|discriminate].
  intro H. injection H as _ <- <-. simpl.
  repeat split; try reflexivity. exists (generate_mp4 e). reflexivity.
Qed.

End Facts.

End TrainFacts.

(** ** The definitions on concrete inputs *)

Module Scenarios.
Import Algo Train Toy Buffer.

(** *** Squashed Gaussian *)

Lemma shape_1_2 (x y : R) : shape2 1 2 [[x; y]].
Proof. split; [reflexivity | repeat constructor]. Qed.

Lemma reparameterize_exact_witness :
  shape2 1 2 [[0; 1]] /\
  Forall (Forall (fun a => -1 < a < 1))
    (fst (Squash.reparameterize [[0; 1]] [[0; 0]] [[1; -1]])).
Proof.
  split; [apply shape_1_2|].
  exact (proj1 (proj2 (SquashFacts.reparameterize_exact 1 2
                         [[0; 1]] [[0; 0]] [[1; -1]]
                         (shape_1_2 _ _) (shape_1_2 _ _) (shape_1_2 _ _)))).
Defined.





(** *** Critic target *)

Example target_q_value :
  Algo.spec_target_q default_sac 0 1 0 2%nat = 298 / 100.
Proof.
  unfold spec_target_q. simpl. unfold Rmin.
  destruct (Rle_dec (1 + 1) 2); lra.
Qed.

Lemma critic_target_and_losses_witness :
  nth_error [1] 0 = Some 1 /\
  nth_error
    (data (target_qs default_sac (fun _ => 0) (from_data [1]) (from_data [0])
             (from_data [2%nat]))) 0
  = Some (spec_target_q default_sac 0 1 0 2%nat).
Proof.
  split; [reflexivity|].
  exact (proj1 (AlgoFacts.critic_target_and_losses default_sac (fun _ => 0)
                  [] [2%nat] [] [1] [0])
           0%nat 1 0 2%nat eq_refl eq_refl eq_refl).
Defined.

(** *** Entropy coefficient *)

Lemma entropy_coefficient_update_witness :
  0 < 1 / 10 /\ min_alpha default_sac < alpha default_sac.
Proof.
  assert (H : 0 < 1 / 10) by lra. split; [exact H|].
  exact (proj1 (proj2 (proj2
           (AlgoFacts.entropy_coefficient_update default_sac (fun _ => 0)
              (from_data []) [] [[1]] [[2]] [[3]] 256 5000 (99 / 100)
              (3 / 10000) (3 / 10000) (3 / 10000) (5 / 1000) (1 / 10) 1
              5000))) H).
Defined.

Lemma after_one_step_sample (rnd : list nat) :
  sample (buffer after_one_step) (batch_size after_one_step) rnd
  = Ok (batch_of [Experience 0%nat 7%nat 1 1%nat false]).
Proof.
  unfold sample, pfrl_sample. cbn.
  change (PosDef.Pos.to_nat 1) with 1%nat.
  rewrite BufferFacts.pick_distinct_cons.
  change (length [0%nat]) with 1%nat. rewrite Nat.mod_1_r. reflexivity.
Qed.

(** C4 fails as stated: with [min_alpha = 0] and a batch of
    log-probability -1, the first [update], due after the first
    environment step, takes [alpha] from 0 to
    [- lr_alpha / (1 + 1e-8)]. *)
Lemma alpha_negative_after_update :
  0 <= alpha greedy_sac /\
  is_update after_one_step 1 = true /\
  exists (a : SAC nat nat) (losses : R * R * R),
    update after_one_step [] (fun _ => 0) (fun _ => -1) = Ok (a, losses) /\
    run (fun _ _ => True) greedy_sac a /\ alpha a < 0.
Proof.
  split; [cbn; lra|]. split; [reflexivity|].
  destruct (AlgoFacts.update_succeeds after_one_step [] (fun _ => 0)
              (fun _ => -1) _ (after_one_step_sample []))
    as (a' & losses & Hup & Hlp).
  exists a', losses. split; [exact Hup|]. split.
  - eapply run_update; [apply run_step, run_init | exact Hup | exact Hlp
                       | exact I].
  - destruct (AlgoFacts.update_alpha _ _ _ _ _ _ _ Hup Hlp) as [Hstep _].
    assert (Hg : entropy_grad after_one_step
                   (snd (actor_loss_func after_one_step (fun _ => -1)
                           (from_data
                              (states (batch_of
                                 [Experience 0%nat 7%nat 1 1%nat false])))))
                 = 1).
    { unfold entropy_grad, mean. cbn. lra. }
    rewrite Hg in Hstep.
    change (optim_alpha after_one_step) with (Adam.init (3 / 10000)) in Hstep.
    rewrite AdamFacts.step_unit_gradient_first in Hstep.
    pose proof (f_equal snd Hstep) as Hal. cbn [snd] in Hal. rewrite Hal.
    change (alpha after_one_step) with (0 * 3).
    pose proof AdamFacts.eps_pos as He.
    assert (0 < 3 / 10000 / (1 + Adam.eps)).
    { apply Rdiv_lt_0_compat; lra. }
    lra.
Qed.

(** With the default hyper-parameters ([min_alpha = 0.1],
    [lr_alpha = 3e-4]) 1001 entropy steps on batches of log-probability
    -1.1 take [alpha] below zero. *)
Example alpha_negative_default_hyperparameters :
  alpha (Nat.iter 1001
           (fun x => entropy_adjust_func x (from_data [-11 / 10]))
           default_sac) < 0.
Proof.
  rewrite (AlgoFacts.entropy_steps_unit_gradient default_sac _ (3 / 10000) 0).
  - change (alpha default_sac) with (1 / 10 * 3).
    replace (INR 1001) with 1001 by (rewrite INR_IZR_INZ; reflexivity).
    unfold Adam.eps. set (q := 3 / 10000 / (1 + 1 / 100000000)).
    assert (Hq : q * (1 + 1 / 100000000) = 3 / 10000)
      by (unfold q; field).
    lra.
  - unfold entropy_grad, mean. cbn. lra.
  - unfold default_sac, SAC_init, Adam.init. cbn. do 2 f_equal; ring.
Qed.

Lemma alpha_nonnegative_on_nonpositive_gradients_witness :
  exists (a : SAC nat nat) (losses : R * R * R),
    update after_one_step [] (fun _ => 0) (fun _ => 1) = Ok (a, losses) /\
    0 <= alpha a.
Proof.
  assert (H0 : 0 <= 0) by lra.
  assert (Hl : 0 <= 3 / 10000) by lra.
  destruct (AlgoFacts.update_succeeds after_one_step [] (fun _ => 0)
              (fun _ => 1) _ (after_one_step_sample []))
    as (a' & losses & Hup & Hlp).
  exists a', losses. split; [exact Hup|].
  apply (AlgoFacts.alpha_nonnegative_on_nonpositive_gradients
           [[1]] [[2]] [[3]] 1 1 (99 / 100) (3 / 10000) (3 / 10000)
           (3 / 10000) (5 / 1000) 0 1 5000 a' H0 Hl).
  eapply run_update; [apply run_step, run_init | exact Hup | exact Hlp |].
  unfold entropy_grad, mean. cbn. lra.
Defined.

(** *** Target critic *)

Lemma target_critic_tracking_witness :
  (same_shape (critic_target unit_tau_sac) (critic unit_tau_sac) /\
   tau unit_tau_sac = 1 /\
   critic_target (update_target unit_tau_sac) = [[2]]) /\
  (same_shape (critic_target zero_tau_sac) (critic zero_tau_sac) /\
   tau zero_tau_sac = 0 /\
   critic_target (update_target zero_tau_sac) = critic_target zero_tau_sac) /\
  (same_shape [[3]] [[2]] /\ critic_target default_sac = [[2]]).
Proof.
  assert (Hs1 : same_shape (critic_target unit_tau_sac) (critic unit_tau_sac))
    by (repeat constructor).
  assert (Ht1 : tau unit_tau_sac = 1) by reflexivity.
  assert (Hs0 : same_shape (critic_target zero_tau_sac) (critic zero_tau_sac))
    by (repeat constructor).
  assert (Ht0 : tau zero_tau_sac = 0) by reflexivity.
  assert (Hs : same_shape [[3]] [[2]])
    by (repeat constructor).
  split; [|split].
  - split; [exact Hs1|]. split; [exact Ht1|].
    exact (proj1 (proj2 (proj2 (proj2 (proj2 (proj2 (proj2
             (AlgoFacts.target_critic_tracking [[1]] [[2]] [[3]] 256 5000
                (99 / 100) (3 / 10000) (3 / 10000) (3 / 10000) 1 (1 / 10) 1
                5000 unit_tau_sac (fun _ => 0) (batch_of []) (from_data [])
                0%nat 0%nat 0 1 0))))))) Hs1 Ht1).
  - split; [exact Hs0|]. split; [exact Ht0|].
    exact (proj2 (proj2 (proj2 (proj2 (proj2 (proj2 (proj2
             (AlgoFacts.target_critic_tracking [[1]] [[2]] [[3]] 256 5000
                (99 / 100) (3 / 10000) (3 / 10000) (3 / 10000) 0 (1 / 10) 1
                5000 zero_tau_sac (fun _ => 0) (batch_of []) (from_data [])
                0%nat 0%nat 0 1 0))))))) Hs0 Ht0).
  - split; [exact Hs|].
    exact (proj1
             (AlgoFacts.target_critic_tracking [[1]] [[2]] [[3]] 256 5000
                (99 / 100) (3 / 10000) (3 / 10000) (3 / 10000) (5 / 1000)
                (1 / 10) 1 5000 default_sac (fun _ => 0) (batch_of [])
                (from_data []) 0%nat 0%nat 0 1 0) Hs).
Defined.

(** *** Warm-up *)

(** The last warm-up call is the one with [steps = start_steps], when
    [start_steps - 1] steps were taken: the action is still the one of
    the sampler of the environment (7), not the one of the policy (5). *)
Lemma random_action_at_start_steps :
  ~ (5000 < start_steps default_sac)%Z /\
  fst (choose_action default_sac 0%nat 0%nat 5000 0) = 7%nat /\
  fst (explore default_sac 0%nat 0) = 5%nat /\
  choose_action default_sac 0%nat 0%nat 5000 0
  <> (fst (explore default_sac 0%nat 0), 0%nat).
Proof.
  split; [cbn; lia|]. split; [reflexivity|]. split; [reflexivity|].
  cbn. discriminate.
Qed.


(** *** Sampling *)

Example overfull_keeps_latest :
  stored overfull
  = [Experience 1%nat 7%nat 1 2%nat false; Experience 2%nat 7%nat 2 3%nat true]
  /\ last_n_transitions (buf overfull) = [].
Proof. split; reflexivity. Qed.

Lemma two_transitions_well_formed : well_formed two_transitions.
Proof.
  unfold two_transitions.
  apply BufferFacts.well_formed_append, BufferFacts.well_formed_append,
    BufferFacts.well_formed_init.
Qed.

(** C7 fails as stated.  With two transitions stored, a batch of two
    never holds the first transition twice, as a draw with replacement
    would with probability 1/4; and a batch of size zero is an error, not
    an empty batch. *)
Lemma sample_without_replacement :
  logical_size two_transitions = 2%nat /\
  nth_error (stored two_transitions) 0
  = Some (Experience 0%nat 7%nat 0 1%nat false) /\
  (forall rnd,
      sample two_transitions 2 rnd
      <> Ok (batch_of [Experience 0%nat 7%nat 0 1%nat false;
                       Experience 0%nat 7%nat 0 1%nat false])) /\
  (forall rnd, sample two_transitions 0 rnd = Raise RuntimeError).
Proof.
  split; [reflexivity|]. split; [reflexivity|]. split.
  - intro rnd. unfold sample, pfrl_sample. cbn.
    change (PosDef.Pos.to_nat 2) with 2%nat.
    rewrite BufferFacts.pick_distinct_cons.
    pose proof (BufferFacts.pick_in_range 0 [1%nat] rnd) as Hi.
    change (length [0%nat; 1%nat]) with 2%nat in *.
    destruct (hd 0%nat rnd mod 2)%nat as [|[|k]]; [| |lia].
    + cbn [nth remove_at]. rewrite BufferFacts.pick_distinct_cons.
      change (length [1%nat]) with 1%nat. rewrite Nat.mod_1_r. cbn.
      discriminate.
    + cbn [nth remove_at]. rewrite BufferFacts.pick_distinct_cons.
      change (length [0%nat]) with 1%nat. rewrite Nat.mod_1_r. cbn.
      discriminate.
  - intro rnd. reflexivity.
Qed.

Lemma sample_contract_witness :
  well_formed two_transitions /\
  (Z.of_nat (logical_size two_transitions) < 3)%Z /\
  sample two_transitions 3 [] = Raise AssertionError /\
  (1 <= 2 <= Z.of_nat (logical_size two_transitions))%Z /\
  exists (idx : list nat) (es : list (experience nat nat)),
    length idx = Z.to_nat 2 /\
    length es = Z.to_nat 2 /\
    NoDup idx /\
    Forall2 (fun i e => nth_error (stored two_transitions) i = Some e)
      idx es /\
    sample two_transitions 2 [] = Ok (batch_of es) /\
    dones (batch_of es)
    = map (fun e => if is_state_terminal e then 1 else 0) es.
Proof.
  assert (H1 : (Z.of_nat (logical_size two_transitions) < 3)%Z)
    by (cbn; lia).
  assert (H2 : (1 <= 2 <= Z.of_nat (logical_size two_transitions))%Z)
    by (cbn; lia).
  split; [exact two_transitions_well_formed|]. split; [exact H1|].
  split.
  - exact (proj1 (BufferFacts.sample_contract two_transitions 3 []
                    two_transitions_well_formed) H1).
  - split; [exact H2|].
    exact (proj2 (BufferFacts.sample_contract two_transitions 2 []
                    two_transitions_well_formed) H2).
Defined.

(** *** Evaluation during training *)

(** C9, where the code departs from it.  The trainer is built on one
    environment object.  After the first training step the episode in
    progress stands at its first step.  The evaluation leaves the
    algorithm (buffer and parameters) as it was, but it runs on the same
    object: afterwards the environment of the training loop stands at
    the end of the evaluation episode, and the next training step, called
    with the state it held before the evaluation, ends and resets an
    episode that without the evaluation would have gone on. *)
Theorem evaluation_shares_training_episode :
  let tr0 := fst (Trainer_init (fun _ => 0%nat) 0%nat greedy_sac 0 100 1 1) in
  let h0 := snd (Trainer_init (fun _ => 0%nat) 0%nat greedy_sac 0 100 1 1) in
  let tr1 := snd (fst (train_step tr0 h0 0%nat 0 1 0)) in
  let h1 := snd (train_step tr0 h0 0%nat 0 1 0) in
  env_test tr1 = env tr1 /\
  fst (fst (train_step tr0 h0 0%nat 0 1 0)) = (1%nat, 1%Z) /\
  h1 (env tr1) = 1%nat /\
  exists r tr2 h2,
    evaluate 5 tr1 h1 1 = Some (r, tr2, h2) /\
    algo tr2 = algo tr1 /\
    h2 (env tr2) = 3%nat /\
    h2 (env tr2) <> h1 (env tr1) /\
    fst (fst (train_step tr2 h2 1%nat 1 2 0)) = (0%nat, 0%Z) /\
    fst (fst (train_step tr1 h1 1%nat 1 2 0)) = (2%nat, 2%Z).
Proof.
  cbv zeta. split; [reflexivity|]. split; [reflexivity|].
  split; [reflexivity|].
  eexists. eexists. eexists. split; [reflexivity|].
  split; [reflexivity|]. split; [reflexivity|].
  split; [cbn; discriminate|]. split; reflexivity.
Qed.

End Scenarios.

(** ** Further properties of the replay buffer *)

Module BufferLaws.
Import Buffer Loop.

Section Laws.
Context {St Act : Type}.
Implicit Types b : ReplayBuffer St Act.

Lemma queue_append_length (c : nat) (q : list (list (experience St Act)))
  (w : list (experience St Act)) :
  length (queue_append c q w) = Nat.min (S (length q)) c.
Proof.
  unfold queue_append. cbv zeta. rewrite length_skipn, !length_app.
  cbn [length]. lia.
Qed.

Lemma append_memory b (s : St) (x : Act) (r : R) (d : bool) (s' : St) :
  memory (buf (append b s x r d s'))
  = queue_append (capacity (buf b)) (memory (buf b))
      [Experience s x r s' d] /\
  capacity (buf (append b s x r d s')) = capacity (buf b).
Proof. unfold append, pfrl_append. simpl. destruct d; split; reflexivity. Qed.

(** X1. [append] stores one more transition until the capacity is
    reached and keeps the size at the capacity from then on; the
    capacity itself never changes. *)
Theorem append_logical_size b (s : St) (x : Act) (r : R) (d : bool)
  (s' : St) :
  logical_size (append b s x r d s')
  = Nat.min (S (logical_size b)) (capacity (buf b)) /\
  capacity (buf (append b s x r d s')) = capacity (buf b) /\
  buffer_size (append b s x r d s') = buffer_size b.
Proof.
  destruct (append_memory b s x r d s') as [Hm Hc].
  unfold logical_size. rewrite Hm, queue_append_length.
  split; [reflexivity|]. split; [exact Hc | reflexivity].
Qed.

Lemma firsts_skipn (j : nat) (mem : list (list (experience St Act))) :
  Forall (fun w => length w = 1%nat) mem ->
  concat (map (firstn 1) (skipn j mem))
  = skipn j (concat (map (firstn 1) mem)).
Proof.
  intro H. revert j. induction H as [|w mem Hw _ IH]; intros [|j];
    simpl; try reflexivity.
  destruct w as [|e [|e' w]]; simpl in Hw; try discriminate.
  simpl. apply IH.
Qed.

Lemma firsts_snoc (mem : list (list (experience St Act)))
  (e : experience St Act) :
  concat (map (firstn 1) (mem ++ [[e]]))
  = concat (map (firstn 1) mem) ++ [e].
Proof.
  rewrite map_app, concat_app. simpl. reflexivity.
Qed.

Lemma firsts_length (mem : list (list (experience St Act))) :
  Forall (fun w => length w = 1%nat) mem ->
  length (concat (map (firstn 1) mem)) = length mem.
Proof.
  induction 1 as [|w mem Hw _ IH]; [reflexivity|].
  destruct w as [|e [|e' w]]; simpl in Hw; try discriminate.
  cbn [map firstn concat app length]. f_equal. exact IH.
Qed.

(** One append: the new transition goes to the back, the oldest ones
    leave from the front. *)
Lemma stored_append b (s : St) (x : Act) (r : R) (d : bool) (s' : St) :
  well_formed b ->
  stored (append b s x r d s')
  = skipn (S (length (stored b)) - capacity (buf b))
      (stored b ++ [Experience s x r s' d]).
Proof.
  intro Hwf. destruct (append_memory b s x r d s') as [Hm _].
  unfold stored. rewrite Hm. unfold queue_append.
  rewrite firsts_skipn.
  - rewrite firsts_snoc, length_app, (firsts_length _ Hwf).
    cbn [length]. f_equal. lia.
  - apply Forall_app. split; [exact Hwf | repeat constructor].
Qed.

Lemma append_all_invariant (c : nat) (es pre : list (experience St Act)) b :
  well_formed b -> capacity (buf b) = c ->
  stored b = skipn (length pre - c) pre ->
  well_formed (append_all b es) /\
  capacity (buf (append_all b es)) = c /\
  stored (append_all b es) = skipn (length (pre ++ es) - c) (pre ++ es).
Proof.
  revert pre b. induction es as [|e es IH]; intros pre b Hwf Hc Hst.
  - rewrite app_nil_r. repeat split; assumption.
  - simpl.
    set (b1 := append b (Buffer.state e) (action e) (reward e)
                 (is_state_terminal e) (next_state e)).
    assert (Hwf1 : well_formed b1)
      by (apply BufferFacts.well_formed_append; exact Hwf).
    assert (Hc1 : capacity (buf b1) = c).
    { destruct (append_memory b (Buffer.state e) (action e) (reward e)
                  (is_state_terminal e) (next_state e)) as [_ H].
      unfold b1. rewrite H. exact Hc. }
    assert (Hst1 : stored b1 = skipn (length (pre ++ [e]) - c) (pre ++ [e])).
    { unfold b1. rewrite stored_append by exact Hwf. rewrite Hc, Hst.
      destruct e as [s x r s' d].
      cbn [Buffer.state action reward next_state is_state_terminal].
      rewrite length_skipn.
      assert (Hk : (length pre - c <= length pre)%nat) by lia.
      replace (skipn (length pre - c) pre
               ++ [Experience s x r s' d])
        with (skipn (length pre - c) (pre ++ [Experience s x r s' d])).
      - rewrite skipn_skipn. f_equal. rewrite length_app. cbn [length].
        lia.
      - rewrite skipn_app.
        replace (length pre - c - length pre)%nat with O by lia.
        reflexivity. }
    destruct (IH (pre ++ [e]) b1 Hwf1 Hc1 Hst1) as (H1 & H2 & H3).
    rewrite <- app_assoc in H3. simpl in H3.
    repeat split; assumption.
Qed.

(** X2. After any sequence of appends to a fresh buffer of capacity [n]
    the buffer holds the last [n] transitions of the sequence, in the
    order of their arrival: [min(length, n)] of them, the oldest evicted
    first. *)
Theorem append_all_keeps_latest (n : nat) (es : list (experience St Act)) :
  stored (append_all (ReplayBuffer_init n) es) = skipn (length es - n) es /\
  logical_size (append_all (ReplayBuffer_init n) es)
  = Nat.min (length es) n /\
  well_formed (append_all (ReplayBuffer_init n) es).
Proof.
  destruct (append_all_invariant n es [] (ReplayBuffer_init n))
    as (Hwf & Hc & Hst);
    [apply BufferFacts.well_formed_init | reflexivity | reflexivity|].
  simpl in Hst. split; [exact Hst|]. split; [|exact Hwf].
  unfold logical_size. rewrite <- (firsts_length _ Hwf).
  fold (stored (append_all (ReplayBuffer_init n) es)).
  rewrite Hst, length_skipn. lia.
Qed.

(** X3. [sample] raises [ValueError] for a negative batch size, whatever
    the buffer holds: the assertion of pfrl on the number of stored
    transitions passes, and the check of [sample_n_k] raises. *)
Theorem sample_rejects_negative b (batch_size : Z) (rnd : list nat) :
  (batch_size < 0)%Z -> sample b batch_size rnd = Raise ValueError.
Proof.
  unfold sample, pfrl_sample, sample_n_k.
  intro Hk. rewrite Z.geb_leb.
  destruct (Z.leb_spec batch_size (Z.of_nat (length (memory (buf b)))));
    [|lia].
  destruct (Z.leb_spec 0 batch_size); [lia|]. reflexivity.
Qed.

Lemma sample_indices b (k : Z) (rnd : list nat) :
  (1 <= k <= Z.of_nat (logical_size b))%Z ->
  sample b k rnd
  = Ok (collect
          (map (fun i => nth i (memory (buf b)) [])
             (pick_distinct (Z.to_nat k) (seq 0 (logical_size b)) rnd))).
Proof.
  intros [Hk1 Hk2]. unfold sample, pfrl_sample, sample_n_k, logical_size in *.
  rewrite Z.geb_leb.
  destruct (Z.leb_spec k (Z.of_nat (length (memory (buf b))))) as [_|H];
    [|lia].
  destruct (Z.leb_spec 0 k) as [_|H]; [|lia].
  cbn [andb bind].
  assert (Hlen : length (pick_distinct (Z.to_nat k)
                           (seq 0 (length (memory (buf b)))) rnd)
                 = Z.to_nat k).
  { apply BufferFacts.pick_distinct_length. rewrite length_seq. lia. }
  destruct (pick_distinct (Z.to_nat k) (seq 0 (length (memory (buf b)))) rnd)
    as [|i idx]; [simpl in Hlen; lia|].
  reflexivity.
Qed.

Lemma lookup_all (xs es : list (experience St Act)) (start : nat) :
  Forall2 (fun i e => nth_error xs i = Some e) (seq start (length es)) es ->
  (start + length es = length xs)%nat ->
  es = skipn start xs.
Proof.
  revert start. induction es as [|e es IH]; intros start H Hlen.
  - simpl in Hlen. rewrite Nat.add_0_r in Hlen. subst start.
    rewrite skipn_all. reflexivity.
  - simpl in H. inversion H as [|? ? ? ? Hhd Htl]; subst.
    simpl in Hlen.
    rewrite (IH (S start) Htl) by lia.
    clear - Hhd. revert start Hhd.
    induction xs as [|x xs IHx]; intros [|start] Hhd; simpl in *;
      try discriminate.
    + injection Hhd as ->. reflexivity.
    + apply IHx. exact Hhd.
Qed.

(** X4. A batch as large as the buffer holds every stored transition
    exactly once: it is a permutation of the stored transitions. *)
Theorem sample_all_is_permutation b (rnd : list nat) :
  well_formed b -> (1 <= logical_size b)%nat ->
  exists es,
    sample b (Z.of_nat (logical_size b)) rnd = Ok (batch_of es) /\
    Permutation es (stored b).
Proof.
  intros Hwf Hn.
  rewrite sample_indices by lia. rewrite Nat2Z.id.
  set (n := logical_size b).
  set (idx := pick_distinct n (seq 0 n) rnd).
  assert (Hlen : length idx = n).
  { apply BufferFacts.pick_distinct_length. rewrite length_seq. lia. }
  assert (Hnd : NoDup idx)
    by (apply BufferFacts.pick_distinct_NoDup, seq_NoDup).
  assert (Hin : incl idx (seq 0 n)).
  { intros i Hi. exact (BufferFacts.pick_distinct_In _ _ _ _ Hi). }
  assert (Hrange : Forall (fun i => (i < logical_size b)%nat) idx).
  { apply Forall_forall. intros i Hi. apply Hin, in_seq in Hi.
    fold n. lia. }
  destruct (BufferFacts.collect_lookup b idx Hwf Hrange) as (es & Hes & Hcol).
  exists es. split; [rewrite Hcol; reflexivity|].
  assert (Hperm : Permutation idx (seq 0 n)).
  { apply NoDup_Permutation_bis; [exact Hnd | | exact Hin].
    rewrite length_seq, Hlen. lia. }
  destruct (Permutation_Forall2 Hperm Hes) as (es' & Hp & Hes').
  assert (Hlen' : length es' = n).
  { rewrite (BufferFacts.Forall2_length_eq _ _ _ Hes'). apply length_seq. }
  rewrite <- Hlen' in Hes'.
  assert (Hst : length (stored b) = n).
  { unfold stored. rewrite (firsts_length _ Hwf). reflexivity. }
  rewrite (lookup_all (stored b) es' 0 Hes') in Hp by (simpl; lia).
  exact Hp.
Qed.

End Laws.

End BufferLaws.

(** ** Further properties of the Adam step *)

Module AdamLaws.
Import Adam.

(** The first step of a fresh optimizer moves the parameter by
    [lr * g / (|g| + eps)] against the gradient. *)
Lemma first_step (l p g : R) :
  snd (step (init l) p g) = p - l * (g / (Rabs g + eps)).
Proof.
  unfold step, init. cbv zeta. cbn [snd lr step_count exp_avg exp_avg_sq].
  pose proof AdamFacts.beta1_range as Hb1.
  pose proof AdamFacts.beta2_range as Hb2.
  pose proof AdamFacts.eps_pos as He.
  pose proof (Rabs_pos g) as Hg.
  assert (Hv : sqrt (beta2 * 0 + (1 - beta2) * (g * g))
               = sqrt (1 - beta2) * Rabs g).
  { replace (beta2 * 0 + (1 - beta2) * (g * g))
      with ((1 - beta2) * Rsqr g) by (unfold Rsqr; ring).
    rewrite sqrt_mult; [|lra|apply Rle_0_sqr].
    rewrite sqrt_Rsqr_abs. reflexivity. }
  rewrite Hv.
  replace (1 - beta2 ^ 1) with (1 - beta2) by (simpl; ring).
  replace (1 - beta1 ^ 1) with (1 - beta1) by (simpl; ring).
  assert (Hs : 0 < sqrt (1 - beta2)) by (apply sqrt_lt_R0; lra).
  replace (sqrt (1 - beta2) * Rabs g / sqrt (1 - beta2)) with (Rabs g)
    by (field; lra).
  field. split; lra.
Qed.

Lemma first_step_bounded (l g : R) :
  0 < l -> Rabs (l * (g / (Rabs g + eps))) < l.
Proof.
  intro Hl. pose proof AdamFacts.eps_pos as He.
  pose proof (Rabs_pos g) as Hg.
  assert (Hd : 0 < Rabs g + eps) by lra.
  rewrite Rabs_mult, (Rabs_right l) by lra.
  unfold Rdiv. rewrite Rabs_mult, (Rabs_right (/ _)).
  2:{ left. apply Rinv_0_lt_compat. exact Hd. }
  assert (Hq : Rabs g * / (Rabs g + eps) < 1).
  { apply Rmult_lt_reg_r with (Rabs g + eps); [exact Hd|].
    rewrite Rmult_assoc, Rinv_l by lra. lra. }
  nra.
Qed.

Lemma first_step_sign (l g : R) :
  0 < l ->
  (g < 0 -> l * (g / (Rabs g + eps)) < 0) /\
  (0 < g -> 0 < l * (g / (Rabs g + eps))).
Proof.
  intro Hl. pose proof AdamFacts.eps_pos as He.
  pose proof (Rabs_pos g) as Hg.
  assert (Hi : 0 < / (Rabs g + eps)) by (apply Rinv_0_lt_compat; lra).
  unfold Rdiv. split; intro H.
  - assert (g * / (Rabs g + eps) < 0) by nra. nra.
  - assert (0 < g * / (Rabs g + eps)) by nra. nra.
Qed.

End AdamLaws.

(** ** Further properties of the SAC algorithm *)

Module AlgoLaws.
Import Algo Loop TensorFacts.

Section Laws.
Context {St Act : Type} {E : Env St Act} {N : Networks St Act}.
Implicit Types a : SAC St Act.

(** *** What [update] does as a whole *)

Lemma update_inversion a a' (rnd : list nat) (noise1 noise2 : nat -> gauss)
  (losses : R * R * R) :
  update a rnd noise1 noise2 = Ok (a', losses) ->
  exists b,
    Buffer.sample (buffer a) (batch_size a) rnd = Ok b /\
    learning_steps a' = (learning_steps a + 1)%Z /\
    buffer a' = buffer a /\
    critic_target a'
    = zipWith (soft_update (tau a)) (critic_target a) (critic a') /\
    start_steps a' = start_steps a /\
    batch_size a' = batch_size a /\
    gamma a' = gamma a /\
    tau a' = tau a /\
    reward_scale a' = reward_scale a /\
    min_alpha a' = min_alpha a /\
    total_rew a' = total_rew a.
Proof.
  unfold update. cbn [buffer batch_size set_learning_steps].
  destruct (Buffer.sample (buffer a) (batch_size a) rnd) as [b|e];
    [|discriminate].
  cbn [bind]. unfold update_critic.
  destruct (critic_loss_func _ noise1 _ _ _ _ _) as [l1 l2].
  destruct (critic_backward_step _ _ _ _ _) as [oc pc].
  unfold update_actor.
  destruct (actor_loss_func _ noise2 _) as [la lp].
  unfold actor_optimizer_step.
  destruct (actor_backward_step _ _ _ _ _ _) as [oa pa].
  unfold entropy_adjust_func.
  destruct (Adam.step _ _ _) as [o x].
  intro H. injection H as <- _. exists b.
  cbn. repeat split; reflexivity.
Qed.

(** X5. A successful [update] counts one learning step, leaves the
    buffer and the hyper-parameters as they were, and moves the target
    critic towards the critic as it is after the gradient step of this
    same update. *)
Theorem update_effect a a' (rnd : list nat) (noise1 noise2 : nat -> gauss)
  (losses : R * R * R) :
  update a rnd noise1 noise2 = Ok (a', losses) ->
  learning_steps a' = (learning_steps a + 1)%Z /\
  buffer a' = buffer a /\
  critic_target a'
  = zipWith (soft_update (tau a)) (critic_target a) (critic a') /\
  (start_steps a', batch_size a') = (start_steps a, batch_size a) /\
  (gamma a', tau a', reward_scale a', min_alpha a')
  = (gamma a, tau a, reward_scale a, min_alpha a).
Proof.
  intro H. destruct (update_inversion _ _ _ _ _ _ H)
    as (b & _ & H1 & H2 & H3 & H4 & H5 & H6 & H7 & H8 & H9 & _).
  rewrite H4, H5, H6, H7, H8, H9. repeat split; assumption.
Qed.

(** *** The buffer along a run *)

Lemma step_buffer a (env : env_state) (state : St) (t steps : Z)
  (noise : gauss) :
  let a' := snd (fst (step a env state t steps noise)) in
  (exists (x : Act) (r : R) (d : bool) (s' : St),
      buffer a' = Buffer.append (buffer a) state x r d s') /\
  start_steps a' = start_steps a /\
  batch_size a' = batch_size a /\
  learning_steps a' = learning_steps a.
Proof.
  unfold step. destruct (choose_action a env state steps noise) as [act e1].
  destruct (env_step e1 act false) as [[[n_state rew] done] e2].
  destruct done; [destruct (env_reset e2) as [s0 e3]|]; simpl;
    (split; [exists act, rew; eexists; eexists; reflexivity|]);
    repeat split; reflexivity.
Qed.

Lemma after_steps_buffer (a0 a : SAC St Act) (k : nat) :
  after_steps a0 k a ->
  Buffer.well_formed (buffer a0) ->
  (Buffer.logical_size (buffer a0)
   <= Buffer.capacity (Buffer.buf (buffer a0)))%nat ->
  Buffer.well_formed (buffer a) /\
  Buffer.capacity (Buffer.buf (buffer a))
  = Buffer.capacity (Buffer.buf (buffer a0)) /\
  Buffer.logical_size (buffer a)
  = Nat.min (Buffer.logical_size (buffer a0) + k)
      (Buffer.capacity (Buffer.buf (buffer a0))) /\
  start_steps a = start_steps a0 /\
  batch_size a = batch_size a0.
Proof.
  intros Hrun Hwf0 Hle0.
  induction Hrun as [|k a env state t steps noise Hrun IH
                     |k a a' rnd n1 n2 losses Hrun IH Hup].
  - repeat split; try assumption. lia.
  - destruct IH as (Hwf & Hc & Hsz & Hss & Hbs).
    destruct (step_buffer a env state t steps noise)
      as ((x & r & d & s' & Hb) & Hss' & Hbs' & _).
    rewrite Hb, Hss', Hbs'.
    destruct (BufferLaws.append_memory (buffer a) state x r d s')
      as [Hm Hc'].
    split; [apply BufferFacts.well_formed_append; exact Hwf|].
    split; [rewrite Hc'; exact Hc|].
    split; [|split; assumption].
    unfold Buffer.logical_size in *.
    rewrite Hm, BufferLaws.queue_append_length, Hc, Hsz. lia.
  - destruct IH as (Hwf & Hc & Hsz & Hss & Hbs).
    destruct (update_inversion _ _ _ _ _ _ Hup)
      as (_ & _ & _ & Hb & _ & Hss' & Hbs' & _).
    rewrite Hb, Hss', Hbs'. repeat split; assumption.
Qed.


Lemma sample_starved (b : Buffer.ReplayBuffer St Act) (k : Z)
  (rnd : list nat) :
  (Z.of_nat (Buffer.logical_size b) < k)%Z ->
  Buffer.sample b k rnd = Raise AssertionError.
Proof.
  intro Hk. unfold Buffer.sample, Buffer.pfrl_sample, Buffer.logical_size in *.
  rewrite Z.geb_leb.
  destruct (Z.leb_spec k (Z.of_nat (length (Buffer.memory (Buffer.buf b)))));
    [lia | reflexivity].
Qed.


(** X8. When the buffer is smaller than a batch
    ([buffer_size < batch_size]), [update] raises the assertion error of
    the sampling in every state of a run, however many steps were
    taken. *)
Theorem update_starved_by_small_buffer (actor0 critic0 target0 : params)
  (bs ss : Z) (g la lc lal t m rs : R) (n k : nat) a (rnd : list nat)
  (noise1 noise2 : nat -> gauss) :
  after_steps
    (SAC_init actor0 critic0 target0 bs g la lc lal n ss t m rs) k a ->
  (Z.of_nat n < bs)%Z ->
  update a rnd noise1 noise2 = Raise AssertionError.
Proof.
  intros Hrun Hbs.
  destruct (after_steps_buffer _ _ _ Hrun)
    as (_ & _ & Hsz & _ & Hb); [constructor | cbn; lia |].
  cbn in Hsz.
  unfold update. cbn [buffer batch_size set_learning_steps].
  rewrite sample_starved; [reflexivity|].
  rewrite Hb, Hsz. cbn. lia.
Qed.

(** *** Target critic *)

Lemma soft_update_gap (tau : R) (target trained : list R) :
  zipWith Rminus (soft_update tau target trained) trained
  = map (Rmult (1 - tau)) (zipWith Rminus target trained).
Proof.
  unfold soft_update. revert trained.
  induction target as [|t target IH]; intros [|x trained]; simpl;
    try reflexivity.
  rewrite IH. f_equal. ring.
Qed.

Lemma update_target_gap a :
  zipWith (zipWith Rminus) (critic_target (update_target a)) (critic a)
  = map (map (Rmult (1 - tau a)))
      (zipWith (zipWith Rminus) (critic_target a) (critic a)).
Proof.
  unfold update_target. simpl. generalize (critic a).
  induction (critic_target a) as [|t ts IH]; intros [|x xs]; simpl;
    try reflexivity.
  rewrite IH, soft_update_gap. reflexivity.
Qed.

Lemma iter_update_target_frame a (n : nat) :
  critic (Nat.iter n update_target a) = critic a /\
  tau (Nat.iter n update_target a) = tau a.
Proof.
  induction n as [|n [IHc IHt]]; [split; reflexivity|].
  change (Nat.iter (S n) update_target a)
    with (update_target (Nat.iter n update_target a)).
  split; [exact IHc | exact IHt].
Qed.

Lemma scale_by_one (t : list (list R)) : map (map (Rmult 1)) t = t.
Proof.
  assert (H : forall row : list R, map (Rmult 1) row = row).
  { induction row as [|x row IH]; simpl; [reflexivity|].
    rewrite IH, Rmult_1_l. reflexivity. }
  induction t as [|row t IH]; simpl; [reflexivity|].
  rewrite IH, H. reflexivity.
Qed.

(** X9. While the critic stands still, every soft update shrinks the
    gap between each target parameter and its critic parameter by the
    factor [1 - tau]: after [n] updates the gap is [(1 - tau)^n] times
    the gap at the start. *)
Theorem soft_update_contracts a (n : nat) :
  zipWith (zipWith Rminus)
    (critic_target (Nat.iter n update_target a)) (critic a)
  = map (map (Rmult ((1 - tau a) ^ n)))
      (zipWith (zipWith Rminus) (critic_target a) (critic a)).
Proof.
  induction n as [|n IH].
  - simpl. symmetry. apply scale_by_one.
  - change (Nat.iter (S n) update_target a)
      with (update_target (Nat.iter n update_target a)).
    destruct (iter_update_target_frame a n) as [Hc Ht].
    rewrite <- Hc at 1. rewrite update_target_gap, Hc, Ht, IH.
    rewrite map_map. apply map_ext. intro row. rewrite map_map.
    apply map_ext. intro x. simpl. ring.
Qed.

(** *** Entropy coefficient *)

(** X10. The first entropy step of a fresh optimizer moves [alpha] by
    [lr * g / (|g| + 1e-8)] against the gradient
    [g = -mean(log_pi + min_alpha)]: by less than the learning rate
    whatever the batch, downwards when the mean of [log_pi + min_alpha]
    is negative and upwards when it is positive. *)
Theorem first_entropy_step a (log_pis : tensor R) (l : R) :
  optim_alpha a = Adam.init l -> 0 < l ->
  let g := entropy_grad a log_pis in
  let a' := entropy_adjust_func a log_pis in
  alpha a' = alpha a - l * (g / (Rabs g + Adam.eps)) /\
  Rabs (alpha a' - alpha a) < l /\
  (mean (map (fun x => x + min_alpha a) (data log_pis)) < 0 ->
   alpha a' < alpha a) /\
  (0 < mean (map (fun x => x + min_alpha a) (data log_pis)) ->
   alpha a < alpha a').
Proof.
  intros Hopt Hl g a'.
  assert (Hal : alpha a' = alpha a - l * (g / (Rabs g + Adam.eps))).
  { pose proof (f_equal snd (AlgoFacts.entropy_adjust_alpha a log_pis)) as H.
    cbn [snd] in H. unfold a'. rewrite H, Hopt.
    apply AdamLaws.first_step. }
  split; [exact Hal|].
  pose proof (AdamLaws.first_step_bounded l g Hl) as Hb.
  destruct (AdamLaws.first_step_sign l g Hl) as [Hneg Hpos].
  split.
  { replace (alpha a' - alpha a) with (- (l * (g / (Rabs g + Adam.eps))))
      by (rewrite Hal; ring).
    rewrite Rabs_Ropp. exact Hb. }
  unfold g, entropy_grad in *. split; intro H.
  - assert (H' : 0 < - mean (map (fun x => x + min_alpha a) (data log_pis)))
      by lra.
    specialize (Hpos H'). lra.
  - assert (H' : - mean (map (fun x => x + min_alpha a) (data log_pis)) < 0)
      by lra.
    specialize (Hneg H'). lra.
Qed.

(** *** Critic target on the ends of episodes *)

(** X11. For a sampled transition that ended its episode the critic
    target is the scaled reward alone: nothing of the target critic, the
    policy or [alpha] enters it.  For a transition that did not, the
    target adds [gamma * (min(target_q1, target_q2) - alpha * log_pi)]
    at the next state. *)
Theorem target_of_sampled_transition a (noise : nat -> gauss)
  (es : list (Buffer.experience St Act)) (i : nat)
  (e : Buffer.experience St Act) :
  nth_error es i = Some e ->
  let b := Buffer.batch_of es in
  let tq := target_qs a noise (from_data (Buffer.rews b))
              (from_data (Buffer.dones b)) (from_data (Buffer.n_states b)) in
  nth_error (data tq) i
  = Some (if Buffer.is_state_terminal e
          then reward_scale a * Buffer.reward e
          else spec_target_q a (noise i) (Buffer.reward e) 0
                 (Buffer.next_state e)).
Proof.
  intros He b tq. unfold tq, b, Buffer.batch_of. cbn [Buffer.rews
    Buffer.dones Buffer.n_states].
  rewrite (AlgoFacts.target_qs_row a noise _ _ _ i (Buffer.reward e)
             (Buffer.float_of_bool (Buffer.is_state_terminal e))
             (Buffer.next_state e)).
  - f_equal. destruct (Buffer.is_state_terminal e); [|reflexivity].
    unfold spec_target_q, Buffer.float_of_bool. ring.
  - rewrite nth_error_map, He. reflexivity.
  - rewrite nth_error_map, He. reflexivity.
  - rewrite nth_error_map, He. reflexivity.
Qed.

End Laws.

End AlgoLaws.

(** ** Further properties of the squashed Gaussian helpers *)

Module SquashLaws.
Import Squash TensorFacts.

(** A batch of means, log-stds and noise of one shape, row by row. *)
Lemma batch_rows (B d : nat) (means log_stds randn : list (list R)) :
  shape2 B d means -> shape2 B d log_stds -> shape2 B d randn ->
  exists rows : list (list R * list R * list R),
    means = map (fun r => fst (fst r)) rows /\
    log_stds = map (fun r => snd (fst r)) rows /\
    randn = map snd rows /\
    length rows = B /\
    Forall (fun r => length (fst (fst r)) = d /\ length (snd (fst r)) = d /\
                     length (snd r) = d) rows.
Proof.
  revert B log_stds randn.
  induction means as [|m means IH]; intros B log_stds randn Hm Hl Hn.
  - apply SquashFacts.shape2_nil_inv in Hm. subst B.
    destruct Hl as [Hl _]. destruct Hn as [Hn _].
    destruct log_stds; [|discriminate]. destruct randn; [|discriminate].
    exists []. repeat split; constructor.
  - apply SquashFacts.shape2_cons in Hm.
    destruct Hm as (B1 & -> & Hdm & Hm).
    destruct log_stds as [|ls log_stds];
      [destruct Hl as [Hl _]; discriminate|].
    destruct randn as [|n randn]; [destruct Hn as [Hn _]; discriminate|].
    apply SquashFacts.shape2_cons in Hl.
    destruct Hl as (B2 & HB2 & Hdl & Hl).
    apply SquashFacts.shape2_cons in Hn.
    destruct Hn as (B3 & HB3 & Hdn & Hn).
    injection HB2 as <-. injection HB3 as <-.
    destruct (IH B1 log_stds randn Hm Hl Hn)
      as (rows & -> & -> & -> & Hlen & Hall).
    exists ((m, ls, n) :: rows). simpl.
    repeat split; try reflexivity; [lia|].
    constructor; [simpl; auto | exact Hall].
Qed.

Lemma reparameterize_on_rows (rows : list (list R * list R * list R)) :
  reparameterize (map (fun r => fst (fst r)) rows)
    (map (fun r => snd (fst r)) rows) (map snd rows)
  = (map (fun r =>
            map tanh
              (zipWith Rplus
                 (zipWith Rmult (map exp (snd (fst r))) (snd r))
                 (fst (fst r)))) rows,
     map (fun r =>
            rsum (zipWith (Normal_log_prob 0) (map exp (snd (fst r)))
                    (zipWith Rmult (map exp (snd (fst r))) (snd r)))
            - rsum (map (fun a => ln (1 - a ^ 2 + eps_stab))
                      (map tanh
                         (zipWith Rplus
                            (zipWith Rmult (map exp (snd (fst r))) (snd r))
                            (fst (fst r)))))) rows).
Proof.
  unfold reparameterize, calc_log_pi.
  induction rows as [|[[m ls] n] rows IH]; [reflexivity|].
  pose proof (f_equal fst IH) as IHa. pose proof (f_equal snd IH) as IHl.
  cbn [map zipWith fst snd] in *. rewrite IHl, IHa. reflexivity.
Qed.

Lemma per_row_on_rows {X : Type} (F : list R -> list R -> list R -> X)
  (rows : list (list R * list R * list R)) :
  per_row F (map (fun r => fst (fst r)) rows)
    (map (fun r => snd (fst r)) rows) (map snd rows)
  = map (fun r => F (fst (fst r)) (snd (fst r)) (snd r)) rows.
Proof.
  unfold per_row. induction rows as [|[[m ls] n] rows IH]; [reflexivity|].
  cbn [map combine zipWith fst snd] in *. rewrite IH. reflexivity.
Qed.

Lemma gauss_in_noise (ls n : list R) :
  rsum (zipWith (Normal_log_prob 0) (map exp ls)
          (zipWith Rmult (map exp ls) n))
  = rsum (zipWith (fun l e => - (e ^ 2) / 2 - l - ln (sqrt (2 * PI))) ls n).
Proof.
  revert n. induction ls as [|l ls IH]; intros [|e n]; simpl;
    try reflexivity.
  rewrite IH. f_equal. unfold Normal_log_prob. rewrite ln_exp.
  pose proof (exp_pos l) as Hl.
  replace (- (exp l * e - 0) ^ 2 / (2 * exp l ^ 2)) with (- e ^ 2 / 2)
    by (field; lra).
  reflexivity.
Qed.

(** X12. In terms of the standard normal noise, the Gaussian part of
    the log-probability is [sum_i (-noise_i^2 / 2 - log_std_i
    - log(sqrt(2 pi)))]: the means enter the log-probability through the
    tanh correction only. *)
Theorem log_pi_in_noise (B d : nat) (means log_stds randn : list (list R)) :
  shape2 B d means -> shape2 B d log_stds -> shape2 B d randn ->
  snd (reparameterize means log_stds randn)
  = per_row
      (fun m ls n =>
         rsum (zipWith (fun l e => - (e ^ 2) / 2 - l - ln (sqrt (2 * PI)))
                 ls n)
         - rsum (map (fun x => ln (1 - tanh x ^ 2 + eps_stab))
                   (spec_u m ls n)))
      means log_stds randn.
Proof.
  intros Hm Hl Hn.
  destruct (batch_rows B d means log_stds randn Hm Hl Hn)
    as (rows & -> & -> & -> & _ & Hall).
  rewrite reparameterize_on_rows, per_row_on_rows. cbn [snd].
  apply map_ext_in. intros [[m ls] n] Hin.
  rewrite Forall_forall in Hall. destruct (Hall _ Hin) as (H1 & H2 & H3).
  cbn [fst snd] in *.
  rewrite gauss_in_noise.
  rewrite (SquashFacts.row_action d m ls n H1 H2 H3).
  unfold spec_action. rewrite map_map. reflexivity.
Qed.



End SquashLaws.

(** ** Further properties of the trainer *)

Module TrainLaws.
Import Algo Train Loop.

Section Laws.
Context {St Act : Type} {E : Env St Act} {N : Networks St Act}.

(** *** Evaluation *)

Lemma eval_episodes_sum (fuel n : nat) (a : SAC St Act) (e e' : env_state)
  (rets rets' : list R) (ave ave' : R) :
  eval_episodes fuel n a e rets ave = Some (rets', ave', e') ->
  exists new,
    rets' = rets ++ new /\ length new = n /\ ave' = ave + rsum new.
Proof.
  revert e rets ave. induction n as [|n IH]; intros e rets ave H.
  - injection H as <- <- _. exists []. rewrite app_nil_r.
    split; [reflexivity|]. split; [reflexivity|]. simpl. ring.
  - simpl in H. destruct (env_reset e) as [state e1].
    destruct (run_episode fuel a e1 state 0) as [[ret e2]|]; [|discriminate].
    destruct (IH _ _ _ H) as (new & -> & Hlen & ->).
    exists (ret :: new). rewrite <- app_assoc.
    split; [reflexivity|]. split; [simpl; lia|]. simpl. ring.
Qed.

Lemma evaluate_inversion (fuel : nat) (tr tr' : Trainer St Act)
  (h h' : heap) (steps : Z) (r : R) :
  evaluate fuel tr h steps = Some (r, tr', h') ->
  exists (rets : list R) (e : env_state),
    length rets = Z.to_nat (num_eval_episodes tr) /\
    r = rsum rets / IZR (num_eval_episodes tr) /\
    tr' = MkTrainer (env tr) (env_test tr) (algo tr)
            (returns tr ++ [(steps, mean rets)]) (num_steps tr)
            (eval_interval tr) (num_eval_episodes tr) (eval_id tr) /\
    h' = store h (env_test tr) e.
Proof.
  unfold evaluate.
  destruct (eval_episodes fuel (Z.to_nat (num_eval_episodes tr)) (algo tr)
              (h (env_test tr)) [] 0) as [[[rets ave] e]|] eqn:He;
    [|discriminate].
  intro H. injection H as <- <- <-.
  destruct (eval_episodes_sum _ _ _ _ _ _ _ _ _ He) as (new & -> & Hlen & ->).
  exists new, (generate_mp4 e). simpl.
  repeat split; try assumption. f_equal. ring.
Qed.

Lemma run_episode_rewards (fuel : nat) (a : SAC St Act) (e e' : env_state)
  (state : St) (acc ret : R) :
  run_episode fuel a e state acc = Some (ret, e') ->
  exists rewards,
    episode_rewards fuel a e state = Some (rewards, e') /\
    ret = acc + rsum rewards.
Proof.
  revert e state acc. induction fuel as [|fuel IH]; intros e state acc H;
    [discriminate|].
  cbn [run_episode episode_rewards] in *.
  destruct (env_step e (exploit a state) true) as [[[state' reward] done] e1].
  destruct done.
  - injection H as <- <-. exists [reward].
    split; [reflexivity|]. simpl. ring.
  - destruct (IH _ _ _ H) as (rewards & -> & ->).
    exists (reward :: rewards). split; [reflexivity|]. simpl. ring.
Qed.

Lemma eval_episodes_rewards (fuel n : nat) (a : SAC St Act)
  (e e' : env_state) (rets rets' : list R) (ave ave' : R) :
  eval_episodes fuel n a e rets ave = Some (rets', ave', e') ->
  exists rewards,
    episodes fuel n a e = Some (rewards, e') /\
    length rewards = n /\
    rets' = rets ++ map rsum rewards /\
    ave' = ave + rsum (map rsum rewards).
Proof.
  revert e rets ave. induction n as [|n IH]; intros e rets ave H.
  - injection H as <- <- <-. exists []. rewrite app_nil_r.
    split; [reflexivity|]. split; [reflexivity|].
    split; [reflexivity|]. simpl. ring.
  - cbn [eval_episodes episodes] in *.
    destruct (env_reset e) as [state e1].
    destruct (run_episode fuel a e1 state 0) as [[ret e2]|] eqn:Hr;
      [|discriminate].
    destruct (run_episode_rewards _ _ _ _ _ _ _ Hr) as (rs & -> & ->).
    destruct (IH _ _ _ H) as (rest & -> & Hlen & -> & ->).
    exists (rs :: rest). split; [reflexivity|].
    split; [simpl; lia|].
    split; [rewrite <- app_assoc; simpl; rewrite Rplus_0_l; reflexivity|].
    simpl. ring.
Qed.

(** Inside [train()], where [start_time] is set and the number of
    episodes is not 0, [evaluate_call] is [evaluate]. *)
Lemma evaluate_call_in_train (fuel : nat) (tr : Trainer St Act) (h : heap)
  (steps : Z) :
  num_eval_episodes tr <> 0%Z ->
  evaluate_call true fuel tr h steps
  = match evaluate fuel tr h steps with
    | Some (r, tr', h') => Returns r tr' h'
    | None => Unfinished
    end.
Proof.
  intro Hn. unfold evaluate_call, evaluate.
  destruct (eval_episodes fuel (Z.to_nat (num_eval_episodes tr)) (algo tr)
              (h (env_test tr)) [] 0) as [[[rets ave] e]|]; [|reflexivity].
  destruct (Z.eqb_spec (num_eval_episodes tr) 0); [contradiction|].
  reflexivity.
Qed.

(** X14. A call of [evaluate] for at least one episode returns a value
    only on a trainer whose [start_time] is set, as it is inside
    [train()].  The value is then the mean, over the episodes run one
    after the other on [env_test], of the sum of the rewards of the
    episode; that same number is recorded, with the step count, as one
    new entry of [returns].  The call changes neither the algorithm
    (buffer, parameters) nor any environment object other than
    [env_test]. *)
Theorem evaluate_records_its_mean (started : bool) (fuel : nat)
  (tr tr' : Trainer St Act) (h h' : heap) (steps : Z) (r : R) :
  evaluate_call started fuel tr h steps = Returns r tr' h' ->
  (1 <= num_eval_episodes tr)%Z ->
  started = true /\
  (exists (rewards : list (list R)) (e : env_state),
      episodes fuel (Z.to_nat (num_eval_episodes tr)) (algo tr)
        (h (env_test tr)) = Some (rewards, e) /\
      length rewards = Z.to_nat (num_eval_episodes tr) /\
      r = mean (map rsum rewards) /\
      h' = store h (env_test tr) (generate_mp4 e)) /\
  returns tr' = returns tr ++ [(steps, r)] /\
  algo tr' = algo tr /\
  (forall x : ref, x <> env_test tr -> h' x = h x) /\
  (env tr', env_test tr', num_steps tr', eval_interval tr',
   num_eval_episodes tr')
  = (env tr, env_test tr, num_steps tr, eval_interval tr,
     num_eval_episodes tr).
Proof.
  unfold evaluate_call. intros H Hn.
  destruct (eval_episodes fuel (Z.to_nat (num_eval_episodes tr)) (algo tr)
              (h (env_test tr)) [] 0) as [[[rets ave] e]|] eqn:He;
    [|discriminate].
  destruct (Z.eqb_spec (num_eval_episodes tr) 0); [discriminate|].
  destruct started; [|discriminate].
  injection H as <- <- <-.
  destruct (eval_episodes_rewards _ _ _ _ _ _ _ _ _ He)
    as (rewards & Hep & Hlen & -> & ->).
  assert (Hmean : (0 + rsum (map rsum rewards)) / IZR (num_eval_episodes tr)
                  = mean ([] ++ map rsum rewards)).
  { unfold mean. cbn [app]. rewrite length_map, Hlen, INR_IZR_INZ, Z2Nat.id
      by lia. f_equal. ring. }
  split; [reflexivity|]. split; [|split; [|split; [|split]]].
  - exists rewards, e. split; [exact Hep|]. split; [exact Hlen|].
    split; [exact Hmean | reflexivity].
  - cbn [returns]. rewrite Hmean. reflexivity.
  - reflexivity.
  - intros x Hx. unfold store.
    destruct (Nat.eqb_spec x (env_test tr)); [contradiction | reflexivity].
  - reflexivity.
Qed.

(** *** One iteration of the loop of [train] *)

Lemma append_size (b : Buffer.ReplayBuffer St Act) (s : St) (x : Act)
  (r : R) (d : bool) (s' : St) :
  Buffer.logical_size (Buffer.append b s x r d s')
  = Nat.min (S (Buffer.logical_size b)) (Buffer.capacity (Buffer.buf b)) /\
  Buffer.capacity (Buffer.buf (Buffer.append b s x r d s'))
  = Buffer.capacity (Buffer.buf b).
Proof.
  destruct (BufferLaws.append_memory b s x r d s') as [Hm Hc].
  unfold Buffer.logical_size. rewrite Hm, BufferLaws.queue_append_length.
  split; [reflexivity | exact Hc].
Qed.

Lemma train_iteration_inversion (fuel : nat) (l l' : loop St Act)
  (steps : Z) (d : draws St Act) :
  train_iteration fuel l steps d = Finished l' ->
  iteration_facts steps (trainer l) (trainer l').
Proof.
  unfold train_iteration, train_step.
  set (tr := trainer l). set (a := algo tr).
  pose proof (AlgoFacts.step_frame a (world l (env tr)) (state l) (t l)
                steps (step_noise d)) as Hframe.
  pose proof (AlgoLaws.step_buffer a (world l (env tr)) (state l) (t l)
                steps (step_noise d)) as Hbuf.
  cbv zeta in Hframe, Hbuf.
  destruct (step a (world l (env tr)) (state l) (t l) steps (step_noise d))
    as [[[state' t'] a1] e1].
  cbn [fst snd] in Hframe, Hbuf.
  destruct Hframe as (Hact & Hcr & Htg & Hal & _ & _).
  destruct Hbuf as ((x & r & dn & s' & Hb) & Hss & Hbs & Hls).
  destruct (append_size (buffer a) (state l) x r dn s') as [Hsz Hcap].
  rewrite <- Hb in Hsz, Hcap.
  assert (Hgate : is_update a1 steps = is_update a steps)
    by (unfold is_update; rewrite Hss, Hbs; reflexivity).
  cbn [algo].
  assert (Hupd :
    forall tr2,
      (if is_update a1 steps
       then match update a1 (sample_rnd d) (critic_noise d) (actor_noise d)
            with
            | Ok (a2, _) =>
                Finished
                  (set_algo
                     (MkTrainer (env tr) (env_test tr) a1 (returns tr)
                        (num_steps tr) (eval_interval tr)
                        (num_eval_episodes tr) (eval_id tr)) a2)
            | Raise e => Failed (Exception e)
            end
       else Finished
              (MkTrainer (env tr) (env_test tr) a1 (returns tr)
                 (num_steps tr) (eval_interval tr) (num_eval_episodes tr)
                 (eval_id tr))) = Finished tr2 ->
      exists a2,
        tr2 = MkTrainer (env tr) (env_test tr) a2 (returns tr)
                (num_steps tr) (eval_interval tr) (num_eval_episodes tr)
                (eval_id tr) /\
        buffer a2 = buffer a1 /\ start_steps a2 = start_steps a1 /\
        batch_size a2 = batch_size a1 /\
        (is_update a steps = false -> a2 = a1)).
  { intros tr2 H. destruct (is_update a1 steps) eqn:Hg.
    - destruct (update a1 (sample_rnd d) (critic_noise d) (actor_noise d))
        as [[a2 ls]|e] eqn:Hup; [|discriminate].
      injection H as <-. exists a2.
      destruct (AlgoLaws.update_inversion _ _ _ _ _ _ Hup)
        as (_ & _ & _ & H2 & _ & H4 & H5 & _).
      split; [reflexivity|]. repeat split; try assumption.
      intro Hq. rewrite Hgate in Hg. congruence.
    - injection H as <-. exists a1. repeat split; reflexivity. }
  match goal with
  | |- match ?u with _ => _ end = _ -> _ => destruct u as [tr2|f] eqn:Hu
  end; [|discriminate].
  destruct (Hupd tr2 eq_refl) as (a2 & -> & Hb2 & Hss2 & Hbs2 & Hq).
  cbn [eval_interval num_eval_episodes].
  destruct (eval_interval tr =? 0)%Z eqn:Hi; [discriminate|].
  apply Z.eqb_neq in Hi.
  destruct (steps mod eval_interval tr =? 0)%Z eqn:Hmod.
  - destruct (num_eval_episodes tr =? 0)%Z; [discriminate|].
    match goal with
    | |- match ?u with _ => _ end = _ -> _ =>
        destruct u as [[[rv tr3] h3]|] eqn:Hev
    end; [|discriminate].
    intro H. injection H as <-. cbn [trainer].
    destruct (evaluate_inversion _ _ _ _ _ _ _ Hev)
      as (rets & e & _ & _ & -> & _).
    constructor; cbn [trainer env env_test algo returns num_steps
      eval_interval num_eval_episodes];
      rewrite ?Hmod, ?length_app, ?Hb2, ?Hss2, ?Hbs2;
      try reflexivity; try assumption; try (cbn [length]; lia).
    intro Hg. rewrite (Hq Hg). repeat split; assumption.
  - intro H. injection H as <-. cbn [trainer].
    constructor; cbn [trainer env env_test algo returns num_steps
      eval_interval num_eval_episodes];
      rewrite ?Hmod, ?length_app, ?Hb2, ?Hss2, ?Hbs2;
      try reflexivity; try assumption; try (cbn [length]; lia).
    intro Hg. rewrite (Hq Hg). repeat split; assumption.
Qed.

(** *** The whole loop *)

Lemma multiples_step (k m : Z) :
  (0 < k)%Z -> (0 <= m)%Z ->
  ((m + 1) / k = m / k + (if ((m + 1) mod k =? 0)%Z then 1 else 0))%Z.
Proof.
  intros Hk Hm. destruct ((m + 1) mod k =? 0)%Z eqn:Hmod.
  - apply Z.eqb_eq in Hmod.
    assert (Hk0 : k <> 0%Z) by lia.
    pose proof (Z.div_mod (m + 1) k Hk0) as H1.
    pose proof (Z.div_mod m k Hk0) as H2.
    pose proof (Z.mod_pos_bound m k Hk) as H3.
    assert (Hq : (k * ((m + 1) / k - (m / k + 1)) = m mod k + 1 - k)%Z)
      by lia.
    assert ((m + 1) / k - (m / k + 1) = 0)%Z by nia. lia.
  - apply Z.eqb_neq in Hmod.
    assert (Hk0 : k <> 0%Z) by lia.
    pose proof (Z.div_mod (m + 1) k Hk0) as H1.
    pose proof (Z.div_mod m k Hk0) as H2.
    pose proof (Z.mod_pos_bound m k Hk) as H3.
    pose proof (Z.mod_pos_bound (m + 1) k Hk) as H4.
    assert (Hq : (k * ((m + 1) / k - m / k)
                  = m mod k + 1 - (m + 1) mod k)%Z) by lia.
    assert ((m + 1) / k - m / k = 0)%Z by nia. lia.
Qed.

Lemma train_from_facts (fuel n : nat) (s : Z) (l l' : loop St Act)
  (d : Z -> draws St Act) :
  train_from fuel n s l d = Finished l' ->
  let tr := trainer l in
  let tr' := trainer l' in
  num_steps tr' = num_steps tr /\
  eval_interval tr' = eval_interval tr /\
  env tr' = env tr /\
  start_steps (algo tr') = start_steps (algo tr) /\
  batch_size (algo tr') = batch_size (algo tr) /\
  Buffer.capacity (Buffer.buf (buffer (algo tr')))
  = Buffer.capacity (Buffer.buf (buffer (algo tr))) /\
  ((Buffer.logical_size (buffer (algo tr))
    <= Buffer.capacity (Buffer.buf (buffer (algo tr))))%nat ->
   Buffer.logical_size (buffer (algo tr'))
   = Nat.min (Buffer.logical_size (buffer (algo tr)) + n)
       (Buffer.capacity (Buffer.buf (buffer (algo tr))))) /\
  ((0 < eval_interval tr)%Z -> (1 <= s)%Z ->
   Z.of_nat (length (returns tr'))
   = (Z.of_nat (length (returns tr))
      + ((s + Z.of_nat n - 1) / eval_interval tr
         - (s - 1) / eval_interval tr))%Z) /\
  ((s + Z.of_nat n - 1
    < Z.max (start_steps (algo tr)) (batch_size (algo tr)))%Z ->
   actor (algo tr') = actor (algo tr) /\
   critic (algo tr') = critic (algo tr) /\
   critic_target (algo tr') = critic_target (algo tr) /\
   alpha (algo tr') = alpha (algo tr) /\
   learning_steps (algo tr') = learning_steps (algo tr)).
Proof.
  revert s l. induction n as [|n IH]; intros s l H; cbv zeta.
  - injection H as <-.
    repeat split; try reflexivity.
    + intro Hle. lia.
    + intros _ _. replace (s + Z.of_nat 0 - 1)%Z with (s - 1)%Z by lia. lia.
  - simpl in H.
    destruct (train_iteration fuel l s (d s)) as [l1|f] eqn:Hit;
      [|discriminate].
    pose proof (train_iteration_inversion _ _ _ _ _ Hit) as F.
    specialize (IH _ _ H). cbv zeta in IH.
    destruct IH as (H1 & H2 & H3 & H4 & H5 & H6 & H7 & H8 & H9).
    destruct F as [Fi Fn Fe Fv Fr Fz Fc Fs Fb Fq].
    split; [congruence|]. split; [congruence|]. split; [congruence|].
    split; [congruence|]. split; [congruence|]. split; [congruence|].
    split; [|split].
    + intro Hle. rewrite H7 by (rewrite Fz, Fc; lia).
      rewrite Fz, Fc. lia.
    + intros Hk Hs. rewrite H8 by (rewrite ?Fe; lia).
      rewrite Fe, Fr, Nat2Z.inj_add.
      pose proof (multiples_step (eval_interval (trainer l)) (s - 1) Hk) as Hm.
      replace (s - 1 + 1)%Z with s in Hm by lia.
      replace (s + 1 + Z.of_nat n - 1)%Z with (s + Z.of_nat (S n) - 1)%Z
        by lia.
      replace (s + 1 - 1)%Z with s by lia.
      destruct (s mod eval_interval (trainer l) =? 0)%Z; cbn [Z.of_nat];
        lia.
    + intro Hq.
      assert (Hg : is_update (algo (trainer l)) s = false).
      { unfold is_update. rewrite Z.geb_leb. apply Z.leb_gt. lia. }
      destruct (Fq Hg) as (Q1 & Q2 & Q3 & Q4 & Q5).
      destruct H9 as (R1 & R2 & R3 & R4 & R5); [rewrite Fs, Fb; lia|].
      repeat split; congruence.
Qed.

(** X15. A run of [train] whose step budget ends before
    [max(start_steps, batch_size)] never learns: when it ends, the
    actor, the critic, the target critic and [alpha] are the ones it
    started with and no learning step was counted. *)
Theorem train_below_threshold_never_learns (fuel : nat)
  (tr : Trainer St Act) (h : heap) (d : Z -> draws St Act)
  (l : loop St Act) :
  train fuel tr h d = Finished l ->
  (num_steps tr < Z.max (start_steps (algo tr)) (batch_size (algo tr)))%Z ->
  actor (algo (trainer l)) = actor (algo tr) /\
  critic (algo (trainer l)) = critic (algo tr) /\
  critic_target (algo (trainer l)) = critic_target (algo tr) /\
  alpha (algo (trainer l)) = alpha (algo tr) /\
  learning_steps (algo (trainer l)) = learning_steps (algo tr).
Proof.
  unfold train. destruct (env_reset (h (env tr))) as [state e].
  intros H Hlt.
  destruct (Z.to_nat (num_steps tr)) as [|n] eqn:Hn.
  - injection H as <-. repeat split; reflexivity.
  - pose proof (train_from_facts _ _ _ _ _ _ H) as F. cbv zeta in F.
    cbn [trainer] in F.
    destruct F as (_ & _ & _ & _ & _ & _ & _ & _ & F).
    apply F. lia.
Qed.

(** X16. When [train] ends, the buffer holds one transition for every
    step of the budget, up to its capacity:
    [min(size at the start + num_steps, capacity)]. *)
Theorem train_fills_buffer (fuel : nat) (tr : Trainer St Act) (h : heap)
  (d : Z -> draws St Act) (l : loop St Act) :
  train fuel tr h d = Finished l ->
  (Buffer.logical_size (buffer (algo tr))
   <= Buffer.capacity (Buffer.buf (buffer (algo tr))))%nat ->
  Buffer.logical_size (buffer (algo (trainer l)))
  = Nat.min (Buffer.logical_size (buffer (algo tr))
             + Z.to_nat (num_steps tr))
      (Buffer.capacity (Buffer.buf (buffer (algo tr)))).
Proof.
  unfold train. destruct (env_reset (h (env tr))) as [state e].
  intros H Hle.
  pose proof (train_from_facts _ _ _ _ _ _ H) as F. cbv zeta in F.
  cbn [trainer] in F.
  destruct F as (_ & _ & _ & _ & _ & _ & F & _).
  exact (F Hle).
Qed.

(** X17. With a positive [eval_interval], a run of [train] that ends has
    evaluated once for every multiple of [eval_interval] among its step
    counts: [returns] has grown by [num_steps / eval_interval]
    entries. *)
Theorem train_evaluation_count (fuel : nat) (tr : Trainer St Act)
  (h : heap) (d : Z -> draws St Act) (l : loop St Act) :
  train fuel tr h d = Finished l ->
  (0 < eval_interval tr)%Z -> (0 <= num_steps tr)%Z ->
  Z.of_nat (length (returns (trainer l)))
  = (Z.of_nat (length (returns tr)) + num_steps tr / eval_interval tr)%Z.
Proof.
  unfold train. destruct (env_reset (h (env tr))) as [state e].
  intros H Hk Hn.
  pose proof (train_from_facts _ _ _ _ _ _ H) as F. cbv zeta in F.
  cbn [trainer] in F.
  destruct F as (_ & _ & _ & _ & _ & _ & _ & F & _).
  rewrite F by lia. rewrite Z2Nat.id by lia.
  replace (1 + num_steps tr - 1)%Z with (num_steps tr) by lia.
  replace (1 - 1)%Z with 0%Z by lia. rewrite Z.div_0_l by lia. lia.
Qed.

End Laws.

End TrainLaws.

(** ** The script train.py *)

Module ScriptLaws.
Import Algo Train Loop.

Section Laws.
Context {St Act : Type} {E : Env St Act} {N : Networks St Act}.

(** X18. In the run configured by train.py ([START_STEP] above
    [NUM_STEPS], [BUFFER_SIZE = 10 * 6] below [BATCH_SIZE]) no step
    count of the budget opens the update gate, every action comes from
    the sampler of the environment, and an [update] would raise the
    assertion error of the sampling in every state of the run. *)
Theorem script_run_is_warm_up_only (actor0 critic0 target0 : params)
  (k : nat) (a : SAC St Act) (env : env_state) (state : St) (steps : Z)
  (noise : gauss) (rnd : list nat) (noise1 noise2 : nat -> gauss) :
  after_steps (script_algo actor0 critic0 target0) k a ->
  (1 <= steps <= NUM_STEPS)%Z ->
  is_update a steps = false /\
  choose_action a env state steps noise = action_space_sample env /\
  update a rnd noise1 noise2 = Raise AssertionError.
Proof.
  intros Hrun Hsteps.
  destruct (AlgoLaws.after_steps_buffer _ _ _ Hrun)
    as (_ & _ & Hsz & Hss & Hbs); [constructor | cbn; lia |].
  change (start_steps (script_algo actor0 critic0 target0))
    with 5000000%Z in Hss.
  change (batch_size (script_algo actor0 critic0 target0))
    with 256%Z in Hbs.
  change NUM_STEPS with 3000000%Z in Hsteps.
  cbn in Hsz.
  split; [|split].
  - unfold is_update. rewrite Hss, Hbs, Z.geb_leb. apply Z.leb_gt. lia.
  - unfold choose_action. rewrite Hss.
    destruct (Z.leb_spec steps 5000000); [reflexivity | lia].
  - unfold update. cbn [buffer batch_size set_learning_steps].
    rewrite AlgoLaws.sample_starved; [reflexivity|].
    rewrite Hbs, Hsz. lia.
Qed.

End Laws.

End ScriptLaws.

(** ** The further properties on concrete inputs *)

Module Runs.
Import Algo Train Loop Toy ToyRuns Buffer.

Lemma sample_rejects_negative_witness :
  (-1 < 0)%Z /\ sample two_transitions (-1) [] = Raise ValueError.
Proof.
  assert (H : (-1 < 0)%Z) by lia.
  split; [exact H|].
  exact (BufferLaws.sample_rejects_negative two_transitions (-1) [] H).
Defined.

Lemma sample_all_is_permutation_witness :
  (1 <= logical_size two_transitions)%nat /\
  exists es,
    sample two_transitions (Z.of_nat (logical_size two_transitions)) [1%nat]
    = Ok (batch_of es) /\
    Permutation es (stored two_transitions).
Proof.
  assert (H : (1 <= logical_size two_transitions)%nat) by (cbn; lia).
  split; [exact H|].
  exact (BufferLaws.sample_all_is_permutation two_transitions [1%nat]
           Scenarios.two_transitions_well_formed H).
Defined.

Lemma update_effect_witness :
  exists (a : SAC nat nat) (losses : R * R * R),
    update after_one_step [] (fun _ => 0) (fun _ => 0) = Ok (a, losses) /\
    learning_steps a = 1%Z /\ buffer a = buffer after_one_step.
Proof.
  destruct (AlgoFacts.update_succeeds after_one_step [] (fun _ => 0)
              (fun _ => 0) _ (Scenarios.after_one_step_sample []))
    as (a' & losses & Hup & _).
  exists a', losses. split; [exact Hup|].
  destruct (AlgoLaws.update_effect _ _ _ _ _ _ Hup) as (H1 & H2 & _).
  split; [exact H1 | exact H2].
Defined.



Lemma update_starved_by_small_buffer_witness :
  (Z.of_nat BUFFER_SIZE < BATCH_SIZE)%Z /\
  update script_sac [] (fun _ => 0) (fun _ => 0) = Raise AssertionError.
Proof.
  assert (H : (Z.of_nat BUFFER_SIZE < BATCH_SIZE)%Z) by reflexivity.
  split; [exact H|].
  exact (AlgoLaws.update_starved_by_small_buffer [[1]] [[2]] [[3]]
           BATCH_SIZE START_STEP (99 / 100) (3 / 10000) (3 / 10000)
           (3 / 10000) (5 / 1000) (1 / 10) REWARD_SCALE BUFFER_SIZE 0
           script_sac [] (fun _ => 0) (fun _ => 0) (after_init _) H).
Defined.

Lemma first_entropy_step_witness :
  0 < 3 / 10000 /\
  Rabs (alpha (entropy_adjust_func default_sac (from_data [0]))
        - alpha default_sac) < 3 / 10000.
Proof.
  assert (H : 0 < 3 / 10000) by lra.
  split; [exact H|].
  exact (proj1 (proj2 (AlgoLaws.first_entropy_step default_sac
                         (from_data [0]) (3 / 10000) eq_refl H))).
Defined.

Lemma target_of_sampled_transition_witness :
  nth_error [Experience 0%nat 7%nat 1 1%nat true] 0
  = Some (Experience 0%nat 7%nat 1 1%nat true) /\
  nth_error
    (data (target_qs default_sac (fun _ => 0) (from_data [1])
             (from_data [1]) (from_data [1%nat]))) 0
  = Some (reward_scale default_sac * 1).
Proof.
  split; [reflexivity|].
  exact (AlgoLaws.target_of_sampled_transition default_sac (fun _ => 0)
           [Experience 0%nat 7%nat 1 1%nat true] 0
           (Experience 0%nat 7%nat 1 1%nat true) eq_refl).
Defined.

Lemma log_pi_in_noise_witness :
  shape2 1 2 [[0; 1]] /\
  length (snd (Squash.reparameterize [[0; 1]] [[0; 0]] [[1; -1]])) = 1%nat.
Proof.
  split; [apply Scenarios.shape_1_2|].
  rewrite (SquashLaws.log_pi_in_noise 1 2 [[0; 1]] [[0; 0]] [[1; -1]]
             (Scenarios.shape_1_2 _ _) (Scenarios.shape_1_2 _ _)
             (Scenarios.shape_1_2 _ _)).
  reflexivity.
Defined.


Lemma evaluate_records_its_mean_witness :
  (1 <= num_eval_episodes (fst short_trainer))%Z /\
  exists r tr' h',
    evaluate_call true 5 (fst short_trainer) (snd short_trainer) 7
    = Returns r tr' h' /\
    returns tr' = [(7%Z, r)] /\ algo tr' = default_sac.
Proof.
  assert (H : (1 <= num_eval_episodes (fst short_trainer))%Z)
    by (cbn; lia).
  split; [exact H|].
  eexists. eexists. eexists. split; [reflexivity|].
  match goal with
  | |- returns ?tr' = [(_, ?r)] /\ _ =>
      destruct (TrainLaws.evaluate_records_its_mean true 5
                  (fst short_trainer) tr' (snd short_trainer) _ 7 r
                  eq_refl H)
        as (_ & _ & H1 & H2 & _)
  end.
  split; [exact H1 | exact H2].
Defined.

Lemma short_run :
  exists l, train 5 (fst short_trainer) (snd short_trainer) still = Finished l.
Proof. eexists. vm_compute. reflexivity. Qed.

Lemma train_below_threshold_never_learns_witness :
  (num_steps (fst short_trainer)
   < Z.max (start_steps default_sac) (batch_size default_sac))%Z /\
  exists l,
    train 5 (fst short_trainer) (snd short_trainer) still = Finished l /\
    actor (algo (trainer l)) = [[1]] /\
    learning_steps (algo (trainer l)) = 0%Z.
Proof.
  assert (H : (num_steps (fst short_trainer)
               < Z.max (start_steps default_sac) (batch_size default_sac))%Z)
    by (cbn; lia).
  split; [exact H|].
  destruct short_run as [l Hl]. exists l. split; [exact Hl|].
  destruct (TrainLaws.train_below_threshold_never_learns 5
              (fst short_trainer) (snd short_trainer) still l Hl H)
    as (H1 & _ & _ & _ & H5).
  split; [exact H1 | exact H5].
Defined.

Lemma train_fills_buffer_witness :
  exists l,
    train 5 (fst short_trainer) (snd short_trainer) still = Finished l /\
    logical_size (buffer (algo (trainer l))) = 2%nat.
Proof.
  destruct short_run as [l Hl]. exists l. split; [exact Hl|].
  assert (H : (logical_size (buffer (algo (fst short_trainer)))
               <= capacity (buf (buffer (algo (fst short_trainer)))))%nat)
    by (cbn; lia).
  exact (TrainLaws.train_fills_buffer 5 (fst short_trainer)
           (snd short_trainer) still l Hl H).
Defined.

Lemma train_evaluation_count_witness :
  exists l,
    train 5 (fst short_trainer) (snd short_trainer) still = Finished l /\
    Z.of_nat (length (returns (trainer l))) = 2%Z.
Proof.
  destruct short_run as [l Hl]. exists l. split; [exact Hl|].
  assert (H1 : (0 < eval_interval (fst short_trainer))%Z) by (cbn; lia).
  assert (H2 : (0 <= num_steps (fst short_trainer))%Z) by (cbn; lia).
  exact (TrainLaws.train_evaluation_count 5 (fst short_trainer)
           (snd short_trainer) still l Hl H1 H2).
Defined.

Lemma script_run_is_warm_up_only_witness :
  (1 <= 1 <= NUM_STEPS)%Z /\
  is_update script_sac 1 = false /\
  choose_action script_sac 0%nat 0%nat 1 0 = (7%nat, 0%nat) /\
  update script_sac [] (fun _ => 0) (fun _ => 0) = Raise AssertionError.
Proof.
  assert (H : (1 <= 1 <= NUM_STEPS)%Z) by (split; discriminate).
  split; [exact H|].
  exact (ScriptLaws.script_run_is_warm_up_only [[1]] [[2]] [[3]] 0
           script_sac 0%nat 0%nat 1 0 [] (fun _ => 0) (fun _ => 0)
           (after_init _) H).
Defined.

End Runs.
